(** * rez.resolver: the package resolver and its memcache protocol

    A shallow embedding of [src/rez/resolver.py].  The [Resolver] object and
    the shared memcache are threaded explicitly through a small state and
    exception monad; the collaborators the module imports (the solver, the
    package repositories, the configuration) are read from an environment
    record.  The debug output of [self._print] is left out: it changes
    neither the resolver nor the memcache. *)

From Stdlib Require Import ZArith Lia Floats Ascii.
From Stdlib Require DecimalString.
From stdpp Require Import gmap strings list fin_maps.

Local Open Scope Z_scope.

(** ** Enumerations *)

Module ResolverStatus.
Inductive t := pending | solved | failed | aborted.

Definition description (s : t) : string :=
  match s with
  | pending => "The resolve has not yet started."
  | solved => "The resolve has completed successfully."
  | failed => "The resolve is not possible."
  | aborted => "The resolve was stopped by the user (via callback)."
  end.

Definition eqb (a b : t) : bool :=
  match a, b with
  | pending, pending | solved, solved | failed, failed | aborted, aborted => true
  | _, _ => false
  end.
End ResolverStatus.

(** Modelled from the spec: the [SolverStatus] enumeration is declared in
    [rez.solver], which is not part of the sources at hand; the solver
    contract lists the three states a solver can be in after [solve()]. *)
Module SolverStatus.
Inductive t := unsolved | failed | solved.

Definition eqb (a b : t) : bool :=
  match a, b with
  | unsolved, unsolved | failed, failed | solved, solved => true
  | _, _ => false
  end.
End SolverStatus.

(** Python exceptions the module can raise on its own. *)
Inductive exn := TypeError | AssertionError.

(** A computation returns, raises, or is cut off by the fuel that bounds
    the [while True] loop of [_solve]. *)
Inductive outcome (A : Type) :=
| Ok (a : A)
| Raise (e : exn)
| OutOfFuel.
Arguments Ok {A} a.
Arguments Raise {A} e.
Arguments OutOfFuel {A}.

(** ** Memcache keys

    [_memcache_key] builds a list [t] and returns [tuple(t)]; the elements
    are tuples of strings, booleans and integers. *)

Inductive KeyElem :=
| KTuple (l : list string)
| KBool (b : bool)
| KInt (z : Z).

Definition Key := list KeyElem.

#[global] Instance KeyElem_eq_dec : EqDecision KeyElem.
Proof. solve_decision. Defined.

#[global] Instance KeyElem_countable : Countable KeyElem.
Proof.
  refine (inj_countable'
    (fun e => match e with
              | KTuple l => inl l
              | KBool b => inr (inl b)
              | KInt z => inr (inr z)
              end)
    (fun s => match s with
              | inl l => KTuple l
              | inr (inl b) => KBool b
              | inr (inr z) => KInt z
              end) _).
  by intros [].
Defined.

(** A state handle is whatever [repo.get_variant_state_handle] returns; a
    repository that cannot tell returns [None]. *)
Definition StateHandle := option Z.

Section Resolver.

(** Opaque payloads: the resolver only moves them around. *)
Context {Requirement VariantHandle Graph Resource : Type}.

(** ** Data *)

(** [packages_.Variant], as far as the resolver looks into it. *)
Record Variant := mkVariant {
  name : string;
  qualified_name : string;
  resource : Resource
}.

(** The dict built by [_solver_to_dict]. *)
Record SolverDict := mkSolverDict {
  sd_status : ResolverStatus.t;
  sd_graph : Graph;
  sd_solve_time : float;
  sd_load_time : float;
  sd_failure_description : option string;
  sd_variant_handles : option (list VariantHandle)
}.

(** A cache value: [(solver_dict, release_times_dict, variant_states_dict)]. *)
Record Entry := mkEntry {
  solver_dict : SolverDict;
  release_times_dict : gmap string Z;
  variant_states_dict : gmap string StateHandle
}.

(** [solver.Variant]: the resolver reads its [userdata] only. *)
Record SolverVariant := mkSolverVariant {
  userdata : VariantHandle
}.

(** A [Solver] after its [solve()] has run. *)
Record Solver := mkSolver {
  solver_status : SolverStatus.t;
  is_partial : bool;
  get_graph : Graph;
  solver_solve_time : float;
  solver_load_time : float;
  abort_reason : option string;
  solver_failure_description : option string;
  solver_resolved_packages : list SolverVariant
}.

(** Keyword arguments of a [Solver] that depend on the resolver.  The
    callbacks, the verbosity and the buffer are forwarded untouched and
    are part of the environment's solver. [kw_max_depth] is [None] when
    the argument is not passed. *)
Record SolverArgs := mkSolverArgs {
  kw_package_requests : list Requirement;
  kw_package_paths : list string;
  kw_timestamp : Z;
  kw_building : bool;
  kw_prune_unfailed : bool;
  kw_max_depth : option Z
}.

(** The [Resolver] object: the constructor's arguments, then the fields
    [solve()] mutates. *)
Record ResolverObj := mkResolver {
  package_requests : list Requirement;
  package_paths : list string;
  timestamp : Z;
  building : bool;
  caching : bool;
  max_depth : Z;
  start_depth : Z;
  status_ : ResolverStatus.t;
  resolved_packages_ : option (list Variant);
  failure_description : option string;
  graph_ : option Graph;
  from_cache : bool;
  solve_time : float;
  load_time : float
}.

(** What the module reads from its imports. *)
Record Env := mkEnv {
  str : Requirement -> string;
  config_resolve_caching : bool;
  config_prune_failed_graph : bool;
  memcache_enabled : bool;
  repository_uid : string -> string;
  get_last_release_time : string -> list string -> Z;
  get_variant : VariantHandle -> Variant;
  get_variant_state_handle : Resource -> StateHandle;
  run_solver : SolverArgs -> Solver
}.

(** ** [Resolver._memcache_key] *)

Definition _memcache_key (env : Env) (self : ResolverObj) (timestamped : bool) : Key :=
  let request := map (str env) (package_requests self) in
  let repo_ids := map (repository_uid env) (package_paths self) in
  let t := [KTuple request;
            KTuple repo_ids;
            KBool (building self);
            KBool (config_prune_failed_graph env);
            KInt (start_depth self);
            KInt (max_depth self)] in
  if timestamped && negb (timestamp self =? 0)
  then t ++ [KInt (timestamp self)]
  else t.

(** ** State and exceptions

    The mutable world of a [solve()]: the resolver object itself, the
    shared memcache (namespace [DataType.resolve]) and the log of the
    solvers that were constructed and run, oldest first. *)

Record World := mkWorld {
  self_ : ResolverObj;
  memcache : gmap Key Entry;
  solver_calls : list SolverArgs
}.

Definition M (A : Type) : Type := World -> outcome A * World.

Definition ret {A} (a : A) : M A := fun w => (Ok a, w).

Definition bind {A B} (c : M A) (k : A -> M B) : M B :=
  fun w =>
    match c w with
    | (Ok a, w') => k a w'
    | (Raise e, w') => (Raise e, w')
    | (OutOfFuel, w') => (OutOfFuel, w')
    end.

Definition raise {A} (e : exn) : M A := fun w => (Raise e, w).
Definition out_of_fuel {A} : M A := fun w => (OutOfFuel, w).

Notation "'let*' x ':=' c 'in' k" := (bind c (fun x => k))
  (at level 10, x pattern, c at level 100, k at level 200).
Notation "c ';;' k" := (bind c (fun _ => k))
  (at level 100, k at level 200, right associativity).

Definition get_self : M ResolverObj := fun w => (Ok (self_ w), w).

Definition put_self (r : ResolverObj) : M unit :=
  fun w => (Ok tt, mkWorld r (memcache w) (solver_calls w)).

(** [memcache_client.get / set / delete] on [DataType.resolve]. *)
Definition memcache_get (key : Key) : M (option Entry) :=
  fun w => (Ok (memcache w !! key), w).

Definition memcache_set (key : Key) (data : Entry) : M unit :=
  fun w => (Ok tt, mkWorld (self_ w) (<[key := data]> (memcache w)) (solver_calls w)).

Definition memcache_delete (key : Key) : M unit :=
  fun w => (Ok tt, mkWorld (self_ w) (delete key (memcache w)) (solver_calls w)).

Variable env : Env.

(** [solver = Solver(max_depth=..., **kwargs); solver.solve()] *)
Definition Solver_solve (args : SolverArgs) : M Solver :=
  fun w => (Ok (run_solver env args),
            mkWorld (self_ w) (memcache w) (solver_calls w ++ [args])).

(** ** [Resolver.__init__] *)

Definition Resolver_init (package_requests : list Requirement)
    (package_paths : list string) (timestamp : Z) (building : bool)
    (max_depth start_depth : Z) (caching : bool) : outcome ResolverObj :=
  if negb (max_depth =? 0) && negb (start_depth =? 0) && negb (start_depth <=? max_depth)
  then Raise AssertionError
  else Ok {| package_requests := package_requests;
             package_paths := package_paths;
             timestamp := timestamp;
             building := building;
             caching := caching;
             max_depth := max_depth;
             start_depth := start_depth;
             status_ := ResolverStatus.pending;
             resolved_packages_ := None;
             failure_description := None;
             graph_ := None;
             from_cache := false;
             solve_time := 0%float;
             load_time := 0%float |}.

(** ** [Resolver._get_cached_solve] and its local functions *)

Definition caching_enabled (self : ResolverObj) : bool :=
  config_resolve_caching env && caching self && memcache_enabled env.

(** [_hit] takes exactly one positional argument: [args] is the argument
    list of the call, and any other arity is a [TypeError]. *)
Definition _hit (args : list Entry) : M SolverDict :=
  match args with
  | [data] => ret (solver_dict data)
  | _ => raise TypeError
  end.

Definition _miss : M (option SolverDict) := ret None.

Definition _delete_cache_entry (key : Key) : M unit := memcache_delete key.

Definition _retrieve (timestamped : bool) : M (Key * option Entry) :=
  let* self := get_self in
  let key := _memcache_key env self timestamped in
  let* data := memcache_get key in
  ret (key, data).

(** [dict.get(k)] on a dict whose values may be [None]. *)
Definition dict_get (d : gmap string StateHandle) (k : string) : StateHandle :=
  match d !! k with
  | Some v => v
  | None => None
  end.

Definition variant_modified (data : Entry) (variant_handle : VariantHandle) : bool :=
  let variant := get_variant env variant_handle in
  let old_state := dict_get (variant_states_dict data) (name variant) in
  let new_state := get_variant_state_handle env (resource variant) in
  negb (bool_decide (old_state = new_state)).

(** Iterating over [None] is a [TypeError]; the loop returns at the first
    modified variant. *)
Definition _packages_changed (key : Key) (data : Entry) : M bool :=
  match sd_variant_handles (solver_dict data) with
  | None => raise TypeError
  | Some variant_handles => ret (existsb (variant_modified data) variant_handles)
  end.

Definition _releases_since_solve (self : ResolverObj) (key : Key) (data : Entry) : bool :=
  existsb (fun '(package_name, release_time) =>
             let time_ := get_last_release_time env package_name (package_paths self) in
             negb (time_ =? release_time))
          (map_to_list (release_times_dict data)).

Definition _timestamp_is_earlier (self : ResolverObj) (key : Key) (data : Entry) : bool :=
  existsb (fun '(package_name, release_time) => timestamp self <? release_time)
          (map_to_list (release_times_dict data)).

(** The first half of the timestamped branch: [Some v] when it returns
    [v], [None] when control falls through to the timestamped lookup. *)
Definition try_non_timestamped (self : ResolverObj) (key : Key)
    (data : option Entry) : M (option (option SolverDict)) :=
  match data with
  | Some data =>
      let* changed := _packages_changed key data in
      if changed then
        _delete_cache_entry key ;; ret None
      else if _releases_since_solve self key data then
        _delete_cache_entry key ;; ret None
      else if negb (_timestamp_is_earlier self key data) then
        let* solver_dict := _hit [] in
        ret (Some (Some solver_dict))
      else ret None
  | None => ret None
  end.

Definition _get_cached_solve : M (option SolverDict) :=
  let* self := get_self in
  if negb (caching_enabled self) then ret None
  else
    let* (key, data) := _retrieve false in
    if negb (timestamp self =? 0) then
      let* early := try_non_timestamped self key data in
      match early with
      | Some result => ret result
      | None =>
          let* (key, data) := _retrieve true in
          match data with
          | None => _miss
          | Some data =>
              let* changed := _packages_changed key data in
              if changed then
                _delete_cache_entry key ;; _miss
              else
                let* solver_dict := _hit [data] in
                ret (Some solver_dict)
          end
      end
    else
      match data with
      | None => _miss
      | Some data =>
          let* changed := _packages_changed key data in
          if changed then
            _delete_cache_entry key ;; _miss
          else if _releases_since_solve self key data then
            _delete_cache_entry key ;; _miss
          else
            let* solver_dict := _hit [data] in
            ret (Some solver_dict)
      end.

(** ** [Resolver._set_cached_solve] *)

(** The [for variant in self.resolved_packages_] loop.  [None] is the
    [return] taken when a release time is not known; otherwise the loop
    ends with [(releases_since_solve, release_times_dict,
    variant_states_dict)]. *)
Fixpoint collect_release_info (self : ResolverObj) (variants : list Variant)
    (releases_since_solve : bool) (release_times_dict : gmap string Z)
    (variant_states_dict : gmap string StateHandle)
    : option (bool * gmap string Z * gmap string StateHandle) :=
  match variants with
  | [] => Some (releases_since_solve, release_times_dict, variant_states_dict)
  | variant :: rest =>
      let time_ := get_last_release_time env (name variant) (package_paths self) in
      if time_ =? 0 then None
      else
        let releases_since_solve :=
          if negb (timestamp self =? 0) && (timestamp self <? time_)
          then true else releases_since_solve in
        collect_release_info self rest releases_since_solve
          (<[name variant := time_]> release_times_dict)
          (<[name variant := get_variant_state_handle env (resource variant)]>
             variant_states_dict)
  end.

Definition _set_cached_solve (solver_dict : SolverDict) : M unit :=
  let* self := get_self in
  if negb (caching_enabled self) then ret tt
  else if negb (ResolverStatus.eqb (status_ self) ResolverStatus.solved) then ret tt
  else
    match resolved_packages_ self with
    | None => raise TypeError
    | Some variants =>
        match collect_release_info self variants false ∅ ∅ with
        | None => ret tt
        | Some (releases_since_solve, release_times_dict, variant_states_dict) =>
            (* [self.timestamp and releases_since_solve], by truthiness *)
            let timestamped := negb (timestamp self =? 0) && releases_since_solve in
            let key := _memcache_key env self timestamped in
            let data := mkEntry solver_dict release_times_dict variant_states_dict in
            memcache_set key data
        end
    end.

(** ** [Resolver._solve] *)

Definition kwargs (self : ResolverObj) (max_depth : option Z) : SolverArgs :=
  {| kw_package_requests := package_requests self;
     kw_package_paths := package_paths self;
     kw_timestamp := timestamp self;
     kw_building := building self;
     kw_prune_unfailed := config_prune_failed_graph env;
     kw_max_depth := max_depth |}.

(** The [while True] loop of the iterative solve, one solver per unit of
    fuel. *)
Fixpoint iterative_solve (fuel : nat) (self : ResolverObj) (depth : Z) : M Solver :=
  match fuel with
  | O => out_of_fuel
  | S fuel =>
      let* solver := Solver_solve (kwargs self (Some depth)) in
      if negb (is_partial solver)
         || SolverStatus.eqb (solver_status solver) SolverStatus.solved
         || (negb (max_depth self =? 0) && (max_depth self <=? depth))
      then ret solver
      else
        let depth := depth * 2 in
        let depth := if negb (max_depth self =? 0)
                     then Z.min depth (max_depth self) else depth in
        iterative_solve fuel self depth
  end.

Definition _solve (fuel : nat) : M Solver :=
  let* self := get_self in
  if negb (start_depth self =? 0) then
    iterative_solve fuel self (start_depth self)
  else if negb (max_depth self =? 0) then
    Solver_solve (kwargs self (Some (max_depth self)))
  else
    Solver_solve (kwargs self None).

(** ** [Resolver._set_result] *)

Definition with_result (self : ResolverObj) (solver_dict : SolverDict)
    (resolved : option (list Variant)) : ResolverObj :=
  {| package_requests := package_requests self;
     package_paths := package_paths self;
     timestamp := timestamp self;
     building := building self;
     caching := caching self;
     max_depth := max_depth self;
     start_depth := start_depth self;
     status_ := sd_status solver_dict;
     resolved_packages_ := resolved;
     failure_description := sd_failure_description solver_dict;
     graph_ := Some (sd_graph solver_dict);
     from_cache := from_cache self;
     solve_time := sd_solve_time solver_dict;
     load_time := sd_load_time solver_dict |}.

Definition _set_result (solver_dict : SolverDict) : M unit :=
  let* self := get_self in
  if ResolverStatus.eqb (sd_status solver_dict) ResolverStatus.solved then
    match sd_variant_handles solver_dict with
    | None =>
        (* [for variant_handle in None] raises after the assignments *)
        put_self (with_result self solver_dict (Some [])) ;; raise TypeError
    | Some variant_handles =>
        put_self (with_result self solver_dict
                    (Some (map (get_variant env) variant_handles)))
    end
  else put_self (with_result self solver_dict None).

(** ** [Resolver._solver_to_dict] *)

Definition _solver_to_dict (solver : Solver) : SolverDict :=
  let graph_ := get_graph solver in
  let solve_time := solver_solve_time solver in
  let load_time := solver_load_time solver in
  match solver_status solver with
  | SolverStatus.unsolved =>
      mkSolverDict ResolverStatus.aborted graph_ solve_time load_time
        (abort_reason solver) None
  | SolverStatus.failed =>
      mkSolverDict ResolverStatus.failed graph_ solve_time load_time
        (solver_failure_description solver) None
  | SolverStatus.solved =>
      mkSolverDict ResolverStatus.solved graph_ solve_time load_time
        None (Some (map userdata (solver_resolved_packages solver)))
  end.

(** ** [Resolver.solve] *)

Definition set_from_cache (b : bool) : M unit :=
  let* self := get_self in
  put_self {| package_requests := package_requests self;
              package_paths := package_paths self;
              timestamp := timestamp self;
              building := building self;
              caching := caching self;
              max_depth := max_depth self;
              start_depth := start_depth self;
              status_ := status_ self;
              resolved_packages_ := resolved_packages_ self;
              failure_description := failure_description self;
              graph_ := graph_ self;
              from_cache := b;
              solve_time := solve_time self;
              load_time := load_time self |}.

(** A [solver_dict] always has its six keys, so [if solver_dict:] only
    asks whether the lookup returned [None]. *)
Definition solve (fuel : nat) : M unit :=
  let* cached := _get_cached_solve in
  match cached with
  | Some solver_dict =>
      set_from_cache true ;;
      _set_result solver_dict
  | None =>
      set_from_cache false ;;
      let* solver := _solve fuel in
      let solver_dict := _solver_to_dict solver in
      _set_result solver_dict ;;
      _set_cached_solve solver_dict
  end.

(** The [resolved_packages] property. *)
Definition resolved_packages (self : ResolverObj) : option (list Variant) :=
  resolved_packages_ self.

(** [⌈log₂(max_depth / start_depth)⌉], for [0 < start_depth <= max_depth]:
    the binary logarithm, rounded up, of the quotient rounded up. *)
Definition ceil_log2_ratio (max_depth start_depth : Z) : Z :=
  Z.log2_up ((max_depth + start_depth - 1) / start_depth).

(** A description that is there and is not the empty string. *)
Definition populated (d : option string) : Prop :=
  exists s, d = Some s /\ s <> "".




(** The solver the iterative solve runs at a depth, and whether its
    result ends the loop whatever [max_depth] is. *)
Definition solver_at (self : ResolverObj) (depth : Z) : Solver :=
  run_solver env (kwargs self (Some depth)).

Definition stops (solver : Solver) : bool :=
  negb (is_partial solver)
  || SolverStatus.eqb (solver_status solver) SolverStatus.solved.

Definition logged (w : World) (calls : list SolverArgs) : World :=
  mkWorld (self_ w) (memcache w) (solver_calls w ++ calls).

(** Only solved results are cached: the invariant of the memcache. *)
Definition cache_solved_only (cache : gmap Key Entry) : Prop :=
  forall key data,
    cache !! key = Some data ->
    sd_status (solver_dict data) = ResolverStatus.solved.

(** Modelled from the spec: [Solver.abort_reason] and
    [Solver.failure_description()] live in [rez.solver], which is not part
    of the sources at hand.  The spec has an aborted solve carry the abort
    reason and a failed one carry the solver's failure description: an
    interrupted solver has an abort reason and a failed one a failure
    description. *)
Definition solver_describes_failure : Prop :=
  forall args,
    (solver_status (run_solver env args) = SolverStatus.unsolved ->
     populated (abort_reason (run_solver env args)))
    /\ (solver_status (run_solver env args) = SolverStatus.failed ->
        populated (solver_failure_description (run_solver env args))).

(** The release time and the state handle the store loop reads for a
    variant. *)
Definition release_time_of (self : ResolverObj) (variant : Variant) : Z :=
  get_last_release_time env (name variant) (package_paths self).

Definition state_of (variant : Variant) : StateHandle :=
  get_variant_state_handle env (resource variant).

(** Two resolvers built from the same constructor arguments. *)
Definition same_inputs (self self' : ResolverObj) : Prop :=
  package_requests self = package_requests self'
  /\ package_paths self = package_paths self'
  /\ timestamp self = timestamp self'
  /\ building self = building self'
  /\ caching self = caching self'
  /\ max_depth self = max_depth self'
  /\ start_depth self = start_depth self'.

(** The shape of the entries [_set_cached_solve] writes: a solved result
    with its list of variant handles. *)
Definition cache_well_formed (cache : gmap Key Entry) : Prop :=
  forall key data,
    cache !! key = Some data ->
    sd_status (solver_dict data) = ResolverStatus.solved
    /\ sd_variant_handles (solver_dict data) <> None.

(** The resolver status [_solver_to_dict] gives to a solver status. *)
Definition resolver_status_of (st : SolverStatus.t) : ResolverStatus.t :=
  match st with
  | SolverStatus.unsolved => ResolverStatus.aborted
  | SolverStatus.failed => ResolverStatus.failed
  | SolverStatus.solved => ResolverStatus.solved
  end.

(** The lookup under the timestamped key, as the second half of
    [_get_cached_solve] does it in a world [w]. *)
Definition timestamped_lookup (w : World) : outcome (option SolverDict) * World :=
  let key := _memcache_key env (self_ w) true in
  match memcache w !! key with
  | None => (Ok None, w)
  | Some data =>
      match sd_variant_handles (solver_dict data) with
      | None => (Raise TypeError, w)
      | Some variant_handles =>
          if existsb (variant_modified data) variant_handles
          then (Ok None, mkWorld (self_ w) (delete key (memcache w)) (solver_calls w))
          else (Ok (Some (solver_dict data)), w)
      end
  end.

(** The same environment after packages have been released: only the
    last release times differ. *)
Definition with_release_times (times : string -> list string -> Z) : Env :=
  {| str := str env;
     config_resolve_caching := config_resolve_caching env;
     config_prune_failed_graph := config_prune_failed_graph env;
     memcache_enabled := memcache_enabled env;
     repository_uid := repository_uid env;
     get_last_release_time := times;
     get_variant := get_variant env;
     get_variant_state_handle := get_variant_state_handle env;
     run_solver := run_solver env |}.

(** The entry the store builds for a solve with the given variants. *)
Definition stored_entry (self : ResolverObj) (cached : SolverDict)
    (variants : list Variant) : Entry :=
  {| solver_dict := cached;
     release_times_dict :=
       fold_left (fun m v => <[name v := release_time_of self v]> m) variants ∅;
     variant_states_dict :=
       fold_left (fun m v => <[name v := state_of v]> m) variants ∅ |}.

End Resolver.

(** * rez.utils.elf: wrappers around readelf and patchelf *)

(** ** The string methods the module uses *)

Definition newline : ascii := "010"%char.

(** The whitespace of [str.strip()] and [str.split()] on a byte string:
    space, tab, newline, vertical tab, form feed, carriage return. *)
Definition isspace (c : ascii) : bool :=
  let n := Ascii.nat_of_ascii c in
  (n =? 32)%nat || ((9 <=? n)%nat && (n <=? 13)%nat).

(** [c in s] for a character. *)
Fixpoint string_mem (c : ascii) (s : string) : bool :=
  match s with
  | EmptyString => false
  | String c' rest => Ascii.eqb c' c || string_mem c rest
  end.

(** [s.split(sep)] for a separator of one character: never empty. *)
Fixpoint split_on (sep : ascii) (s : string) : list string :=
  match s with
  | EmptyString => [EmptyString]
  | String c rest =>
      if Ascii.eqb c sep then EmptyString :: split_on sep rest
      else match split_on sep rest with
           | [] => [String c EmptyString]
           | field :: fields => String c field :: fields
           end
  end.

(** [s.lstrip()], [s.rstrip()] and [s.strip()]. *)
Fixpoint lstrip (s : string) : string :=
  match s with
  | EmptyString => EmptyString
  | String c rest => if isspace c then lstrip rest else s
  end.

Fixpoint rstrip (s : string) : string :=
  match s with
  | EmptyString => EmptyString
  | String c rest =>
      match rstrip rest with
      | EmptyString => if isspace c then EmptyString else String c EmptyString
      | kept => String c kept
      end
  end.

Definition strip (s : string) : string := rstrip (lstrip s).

(** The word that starts at the head of [s], and the words after it. *)
Fixpoint tokens (s : string) : string * list string :=
  match s with
  | EmptyString => (EmptyString, [])
  | String c rest =>
      let (word, words) := tokens rest in
      if isspace c then
        (EmptyString, match word with EmptyString => words | _ => word :: words end)
      else (String c word, words)
  end.

(** [s.split()]: the words between runs of whitespace. *)
Definition split_ws (s : string) : list string :=
  let (word, words) := tokens s in
  match word with EmptyString => words | _ => word :: words end.

(** [s[:-1]] and [s[1:-1]]. *)
Fixpoint drop_last (s : string) : string :=
  match s with
  | EmptyString => EmptyString
  | String c EmptyString => EmptyString
  | String c rest => String c (drop_last rest)
  end.

Definition slice_1_m1 (s : string) : string :=
  match s with
  | EmptyString => EmptyString
  | String _ rest => drop_last rest
  end.

(** [s.replace(c, by)] for a character [c]. *)
Fixpoint replace_char (c : ascii) (by_ : string) (s : string) : string :=
  match s with
  | EmptyString => EmptyString
  | String c' rest =>
      if Ascii.eqb c' c then by_ +:+ replace_char c by_ rest
      else String c' (replace_char c by_ rest)
  end.

(** [x in parts] for a list of strings. *)
Definition list_mem (x : string) (parts : list string) : bool :=
  existsb (String.eqb x) parts.


(** ** Processes *)

(** What [proc.communicate()] and [proc.returncode] give. *)
Record Completed := mkCompleted {
  proc_out : string;
  proc_err : string;
  returncode : Z
}.

Inductive elf_error :=
| RuntimeError (message : string)
| IndexError.

(** What the module does to the outside, in order: the processes it runs
    (argument vector and [env] keyword, [None] when not passed) and the
    [make_path_writable] context it enters and leaves. *)
Inductive ElfEvent :=
| Ran (nargs : list string) (env : option (gmap string string))
| EnterWritable (path : string)
| ExitWritable (path : string).

Section Elf.

(** [subprocess.Popen(nargs, stdout=PIPE, stderr=PIPE, **popen_kwargs)] and
    its [communicate()]; [pipes.quote]. *)
Variable popen : list string -> option (gmap string string) -> Completed.
Variable quote : string -> string.

Definition failure_message (nargs : list string) (proc : Completed) : string :=
  let cmd_ := String.concat " " (map quote nargs) in
  "Command " +:+ cmd_ +:+ " - failed with exitcode "
  +:+ DecimalString.NilZero.string_of_int (Z.to_int (returncode proc)) +:+ ": "
  +:+ replace_char newline "\n" (strip (proc_err proc)).

Definition _run (nargs : list string) (env : option (gmap string string))
    (log : list ElfEvent) : (elf_error + string) * list ElfEvent :=
  let proc := popen nargs env in
  let log := log ++ [Ran nargs env] in
  if negb (returncode proc =? 0)
  then (inl (RuntimeError (failure_message nargs proc)), log)
  else (inr (proc_out proc), log).

(** The body of the loop of [get_rpaths]: [None] when the line is passed
    over, [Some r] when the function returns (or raises) at this line. *)
Definition rpaths_of_line (line : string) : option (elf_error + list string) :=
  let parts := split_ws (strip line) in
  if list_mem "(RPATH)" parts || list_mem "(RUNPATH)" parts then
    match last parts with
    | None => Some (inl IndexError)
    | Some txt =>
        let txt := slice_1_m1 txt in
        let rpaths := split_on ":" txt in
        Some (inr (match rpaths with [] => [] | _ => rpaths end))
    end
  else None.

Fixpoint scan_lines (lines : list string) : elf_error + list string :=
  match lines with
  | [] => inr []
  | line :: rest =>
      match rpaths_of_line line with
      | Some result => result
      | None => scan_lines rest
      end
  end.

Definition get_rpaths (elfpath : string) (log : list ElfEvent)
    : (elf_error + list string) * list ElfEvent :=
  match _run ["readelf"; "-d"; elfpath] None log with
  | (inl e, log) => (inl e, log)
  | (inr out, log) => (scan_lines (split_on newline out), log)
  end.

(** [environ] is [os.environ]; the [with] block leaves the context also
    when [_run] raises. *)
Definition patch_rpaths (environ : gmap string string) (elfpath : string)
    (rpaths : list string) (log : list ElfEvent)
    : (elf_error + unit) * list ElfEvent :=
  let env := <["ORIGIN" := "$ORIGIN"]> environ in
  let log := log ++ [EnterWritable elfpath] in
  let (result, log) :=
    match rpaths with
    | _ :: _ =>
        _run ["patchelf"; "--set-rpath"; String.concat ":" rpaths; elfpath] (Some env) log
    | [] => _run ["patchelf"; "--remove-rpath"] None log
    end in
  (match result with inl e => inl e | inr _ => inr tt end,
   log ++ [ExitWritable elfpath]).

End Elf.

(** * rez.cli.bind: the [rez-bind] command *)

Module cli_bind.

(** A keyword argument of a call: left out, or passed. *)
Inductive kwarg (A : Type) :=
| NotPassed
| Passed (a : A).
Arguments NotPassed {A}.
Arguments Passed {A} a.

(** The parsed command line, as [setup_parser] declares it; [list_] is
    [opts.list]. *)
Record Opts := mkOpts {
  quickstart : bool;
  release : bool;
  install_path : option string;
  no_deps : bool;
  list_ : bool;
  search : bool;
  PKG : option string;
  BIND_ARGS : list string
}.

(** The truth value of an optional string: [None] and the empty string
    are false. *)
Definition truthy (s : option string) : bool :=
  match s with
  | None => false
  | Some EmptyString => false
  | Some _ => true
  end.

Section Command.

(** Version ranges and bound variants are opaque to the command. *)
Context {Range Variant : Type}.

(** What the command does to the outside, in order. [ParserError] is
    [parser.error], which ends the process. *)
Inductive Event :=
| Print (text : string)
| BindPackage (name : string) (path : string)
    (version_range : kwarg (option Range)) (no_deps : kwarg bool)
    (bind_args : kwarg (list string)) (quiet : kwarg bool)
| FindBindModule (name : string) (verbose : bool)
| PrintPackageList (variants : list Variant)
| ParserError (message : string).

(** What the command imports: the configuration, [rez.package_bind] and
    [rez.utils.formatting].  [bind_package] sees what was done before it;
    [sorted_bind_modules] is [sorted(get_bind_modules().items())], a row
    per module. *)
Record Env := mkEnv {
  release_packages_path : string;
  local_packages_path : string;
  sorted_bind_modules : list (list string);
  columnise : list (list string) -> list string;
  bind_package : list Event -> string -> string -> kwarg (option Range) ->
                 kwarg bool -> kwarg (list string) -> kwarg bool -> list Variant;
  request_name : string -> string;
  request_range : string -> Range;
  is_any : Range -> bool
}.

Variable env : Env.

Definition choose_install_path (opts : Opts) : string :=
  if release opts then release_packages_path env
  else if truthy (install_path opts) then default EmptyString (install_path opts)
  else local_packages_path env.

(** note: in dependency order, do not change *)
Definition quickstart_names : list string :=
  ["platform"; "arch"; "os"; "python"; "rez"; "rezgui"; "setuptools"; "pip"].

(** The [for name in names] loop of the quickstart: the trace so far and
    the variants collected so far. *)
Fixpoint bind_each (path : string) (names : list string)
    (trace : list Event) (variants : list Variant) : list Event * list Variant :=
  match names with
  | [] => (trace, variants)
  | name :: rest =>
      let trace := trace ++ [Print ("Binding " +:+ name +:+ " into " +:+ path +:+ "...")] in
      let variants_ :=
        bind_package env trace name path NotPassed (Passed true) NotPassed (Passed true) in
      let trace :=
        trace ++ [BindPackage name path NotPassed (Passed true) NotPassed (Passed true)] in
      bind_each path rest trace (variants ++ variants_)
  end.

Definition newline : string := String "010"%char EmptyString.

Definition command (opts : Opts) : list Event :=
  let install_path := choose_install_path opts in
  if list_ opts then
    let rows := [["PACKAGE"; "BIND MODULE"];
                 ["-------"; "-----------"]] ++ sorted_bind_modules env in
    [Print (String.concat newline (columnise env rows))]
  else if quickstart opts then
    let (trace, variants) := bind_each install_path quickstart_names [] [] in
    let trace :=
      match variants with
      | _ :: _ =>
          trace ++ [Print (newline +:+ "Successfully converted the following software found on "
                           +:+ "the current system into Rez packages:");
                    Print EmptyString;
                    PrintPackageList variants]
      | [] => trace
      end in
    trace ++ [Print (newline +:+ "To bind other software, see what's available using the "
                     +:+ "command 'rez-bind --list', then run 'rez-bind <name>'."
                     +:+ newline)]
  else if negb (truthy (PKG opts)) then
    [ParserError "PKG required."]
  else
    let pkg := default EmptyString (PKG opts) in
    let name := request_name env pkg in
    let version_range :=
      if is_any env (request_range env pkg) then None
      else Some (request_range env pkg) in
    if search opts then
      [FindBindModule name true]
    else
      [BindPackage name install_path (Passed version_range) (Passed (no_deps opts))
         (Passed (BIND_ARGS opts)) NotPassed].

(** Whether an event binds a package. *)
Definition is_bind (e : Event) : bool :=
  match e with
  | BindPackage _ _ _ _ _ _ => true
  | _ => false
  end.

End Command.
End cli_bind.

(** * rez.cli.context: the [rez-context] command *)

Module cli_context.

(** The parsed command line; [verbose] comes from the parent parser. *)
Record Opts := mkOpts {
  RXT : option string;
  print_request : bool;
  print_resolve : bool;
  source_order : bool;
  show_uris : bool;
  tools : bool;
  which : option string;
  graph : bool;
  dependency_graph : bool;
  print_graph : bool;
  write_graph : option string;
  prune_pkg : option string;
  interpret : bool;
  format : string;
  style : string;
  no_env : bool;
  diff : option string;
  fetch : bool;
  verbose : Z
}.

Section Command.

(** A [ResolvedContext] is opaque to the command. *)
Context {ResolvedContext : Type}.

(** What the command does to the outside, in order.  [SysExit] is
    [sys.exit], which ends the process. *)
Inductive Event :=
| ReadFromBuffer
| Load (path : string)
| Resolve (requests : list string) (package_paths : list string) (verbosity : Z)
| Stdout (text : string)
| Stderr (text : string)
| PrintItems (items : list string)
| PrintTools (rc : ResolvedContext)
| PrintResolveDiff (rc other : ResolvedContext) (heading : bool + string * string)
| Which (rc : ResolvedContext) (cmd : string) (parent_environ : option (gmap string string))
| ViewGraph (gstr : string) (dest_file : option string)
| SaveGraph (gstr : string) (dest_file : option string)
| PrintInfo (rc : ResolvedContext) (verbosity : Z) (source_order show_resolved_uris : bool)
| GetEnviron (rc : ResolvedContext) (parent_environ : option (gmap string string))
| GetShellCode (rc : ResolvedContext) (shell : string)
    (parent_environ : option (gmap string string)) (style : string)
| SysExit (code : Z).

(** What the command imports: [rez.status], [ResolvedContext] and its
    methods, the graph utilities and the formatters. *)
Record Env := mkEnv {
  status_context_file : option string;
  read_from_buffer : ResolvedContext;
  load : string -> ResolvedContext;
  resolve : list string -> list string -> Z -> ResolvedContext;
  has_graph : ResolvedContext -> bool;
  get_dependency_graph : ResolvedContext -> string;
  graph_as_dot : ResolvedContext -> string;
  requested_packages : ResolvedContext -> cli_bind.kwarg bool -> list string;
  resolved_uris : ResolvedContext -> list string;
  resolved_qualified_names : ResolvedContext -> list string;
  package_paths : ResolvedContext -> list string;
  rc_which : ResolvedContext -> string -> option (gmap string string) -> option string;
  get_environ : ResolvedContext -> option (gmap string string) -> gmap string string;
  get_shell_code : ResolvedContext -> string -> option (gmap string string) -> string -> string;
  request_name : string -> string;
  prune_graph : string -> string -> string;
  columnise : list (list string) -> list string;
  sorted_items : gmap string string -> list (list string);
  pformat : gmap string string -> string;
  json_dumps : gmap string string -> string
}.

Variable env : Env.

(** The local function [_graph]: the graph as a dot string, or what it
    does when the context has none. *)
Definition _graph (opts : Opts) (rc : ResolvedContext) : string + list Event :=
  if has_graph env rc then
    if dependency_graph opts then inl (get_dependency_graph env rc)
    else inl (graph_as_dot env rc)
  else inr [Stderr "The context does not contain a graph."; SysExit 1].

Definition inspect (opts : Opts) (rc : ResolvedContext)
    (parent_env : option (gmap string string)) : list Event :=
  if print_request opts then
    [PrintItems (requested_packages env rc (cli_bind.Passed false))]
  else if print_resolve opts then
    if show_uris opts then [PrintItems (resolved_uris env rc)]
    else [PrintItems (resolved_qualified_names env rc)]
  else if tools opts then
    [PrintTools rc]
  else if cli_bind.truthy (diff opts) then
    let path := default EmptyString (diff opts) in
    [Load path; PrintResolveDiff rc (load env path) (inl true)]
  else if fetch opts then
    let requests := requested_packages env rc cli_bind.NotPassed in
    [Resolve requests (package_paths env rc) (verbose opts);
     PrintResolveDiff rc (resolve env requests (package_paths env rc) (verbose opts))
       (inr ("current", "updated"))]
  else if cli_bind.truthy (which opts) then
    let cmd := default EmptyString (which opts) in
    [Which rc cmd parent_env;
     if cli_bind.truthy (rc_which env rc cmd parent_env)
     then Stdout (default EmptyString (rc_which env rc cmd parent_env))
     else Stderr ("'" +:+ cmd +:+ "' not found in the context")]
  else if print_graph opts then
    match _graph opts rc with
    | inl gstr => [Stdout gstr]
    | inr exit => exit
    end
  else if graph opts || dependency_graph opts || cli_bind.truthy (write_graph opts) then
    match _graph opts rc with
    | inl gstr =>
        let gstr :=
          if cli_bind.truthy (prune_pkg opts)
          then prune_graph env gstr (request_name env (default EmptyString (prune_pkg opts)))
          else gstr in
        if graph opts || dependency_graph opts
        then [ViewGraph gstr (write_graph opts)]
        else [SaveGraph gstr (write_graph opts)]
    | inr exit => exit
    end
  else
    [PrintInfo rc (verbose opts) (source_order opts) (show_uris opts)].

Definition print_code (opts : Opts) (rc : ResolvedContext)
    (parent_env : option (gmap string string)) : list Event :=
  if bool_decide (format opts ∈ ["dict"; "table"; "json"]) then
    let environ := get_environ env rc parent_env in
    [GetEnviron rc parent_env;
     if String.eqb (format opts) "table"
     then Stdout (String.concat cli_bind.newline (columnise env (sorted_items env environ)))
     else if String.eqb (format opts) "dict"
     then Stdout (pformat env environ)
     else Stdout (json_dumps env environ)]
  else
    [GetShellCode rc (format opts) parent_env (style opts);
     Stdout (get_shell_code env rc (format opts) parent_env (style opts))].

(** [rxt_file], and the context read from it. *)
Definition rxt_file (opts : Opts) : option string :=
  if cli_bind.truthy (RXT opts) then RXT opts else status_context_file env.

Definition load_context (rxt_file : string) : Event * ResolvedContext :=
  if String.eqb rxt_file "-"
  then (ReadFromBuffer, read_from_buffer env)
  else (Load rxt_file, load env rxt_file).

Definition command (opts : Opts) : list Event :=
  if negb (cli_bind.truthy (rxt_file opts)) then
    [Stderr "not in a resolved environment context."; SysExit 1]
  else
    let (loaded, rc) := load_context (default EmptyString (rxt_file opts)) in
    let parent_env := if no_env opts then Some ∅ else None in
    if negb (interpret opts) then loaded :: inspect opts rc parent_env
    else loaded :: print_code opts rc parent_env.

(** Whether an event asks the context for its environment, and the parent
    environment an event passes on. *)
Definition computes_environ (e : Event) : bool :=
  match e with
  | GetEnviron _ _ | GetShellCode _ _ _ _ => true
  | _ => false
  end.

Definition parent_environ_of (e : Event) : option (option (gmap string string)) :=
  match e with
  | Which _ _ parent | GetEnviron _ parent | GetShellCode _ _ parent _ => Some parent
  | _ => None
  end.

(** Whether an event shows something: standard output, or a graph viewed
    or saved. *)
Definition shows (e : Event) : bool :=
  match e with
  | Stdout _ | PrintItems _ | PrintTools _ | PrintResolveDiff _ _ _
  | ViewGraph _ _ | SaveGraph _ _ | PrintInfo _ _ _ _ => true
  | _ => false
  end.

End Command.
End cli_context.

(** * Worked scenarios

    Requests, variant handles and resources are strings here; the graph is
    of no interest.  The repository knows the releases [A] at 100 and [B]
    at 200 unless said otherwise. *)

Definition example_variant (handle : string) : @Variant string :=
  mkVariant handle handle handle.

Definition example_times (a b : Z) (package_name : string) : Z :=
  if String.eqb package_name "A" then a
  else if String.eqb package_name "B" then b
  else 0.

Definition example_solver (status : SolverStatus.t) (partial : bool)
    : @Solver string unit :=
  {| solver_status := status;
     is_partial := partial;
     get_graph := tt;
     solver_solve_time := 0%float;
     solver_load_time := 0%float;
     abort_reason :=
       match status with
       | SolverStatus.unsolved => Some "stopped by callback"
       | _ => None
       end;
     solver_failure_description :=
       match status with
       | SolverStatus.failed => Some "A conflicts with B"
       | _ => None
       end;
     solver_resolved_packages :=
       match status with
       | SolverStatus.solved => [mkSolverVariant "A"; mkSolverVariant "B"]
       | _ => []
       end |}.

Definition example_env (times : string -> Z)
    (solver : @SolverArgs string -> @Solver string unit)
    : @Env string string unit string :=
  {| str := fun request => request;
     config_resolve_caching := true;
     config_prune_failed_graph := false;
     memcache_enabled := true;
     repository_uid := fun path => String.append "filesystem@" path;
     get_last_release_time := fun package_name _ => times package_name;
     get_variant := example_variant;
     get_variant_state_handle := fun _ => Some 1;
     run_solver := solver |}.

Definition example_resolver (requests paths : list string)
    (T max_d start_d : Z) (status : ResolverStatus.t)
    (resolved : option (list (@Variant string))) : @ResolverObj string unit string :=
  {| package_requests := requests;
     package_paths := paths;
     timestamp := T;
     building := false;
     caching := true;
     max_depth := max_d;
     start_depth := start_d;
     status_ := status;
     resolved_packages_ := resolved;
     failure_description := None;
     graph_ := None;
     from_cache := false;
     solve_time := 0%float;
     load_time := 0%float |}.

Definition example_solver_dict : @SolverDict string unit :=
  _solver_to_dict (example_solver SolverStatus.solved false).

(** The entry a live solve of [A B] leaves behind. *)
Definition example_entry : @Entry string unit :=
  {| solver_dict := example_solver_dict;
     release_times_dict := {[ "A" := 100; "B" := 200 ]};
     variant_states_dict := {[ "A" := Some 1; "B" := Some 1 ]} |}.

Definition solved_env : @Env string string unit string :=
  example_env (example_times 100 200)
              (fun _ => example_solver SolverStatus.solved false).

Definition example_world (env : @Env string string unit string)
    (self : @ResolverObj string unit string)
    (cached : bool) : @World string string unit string :=
  {| self_ := self;
     memcache := if cached then {[ _memcache_key env self false := example_entry ]}
                 else ∅;
     solver_calls := [] |}.

Definition resolved_AB : list (@Variant string) :=
  [example_variant "A"; example_variant "B"].

(** The solver is partial and not solved below depth 16 and solved from
    there on. *)
Definition deepening_solver (args : @SolverArgs string) : @Solver string unit :=
  match kw_max_depth args with
  | Some depth =>
      if depth <? 16 then example_solver SolverStatus.failed true
      else example_solver SolverStatus.solved true
  | None => example_solver SolverStatus.solved false
  end.

Definition deepening_env : @Env string string unit string :=
  example_env (example_times 100 200) deepening_solver.

Definition failing_env : @Env string string unit string :=
  example_env (example_times 100 200)
              (fun _ => example_solver SolverStatus.failed false).

(** The memcache client is switched off. *)
Definition uncached_env : @Env string string unit string :=
  {| str := fun request => request;
     config_resolve_caching := true;
     config_prune_failed_graph := false;
     memcache_enabled := false;
     repository_uid := fun path => String.append "filesystem@" path;
     get_last_release_time := fun package_name _ => example_times 100 200 package_name;
     get_variant := example_variant;
     get_variant_state_handle := fun _ => Some 1;
     run_solver := fun _ => example_solver SolverStatus.solved false |}.

(** A solver that is never solved and never complete. *)
Definition stubborn_env : @Env string string unit string :=
  example_env (example_times 100 200)
              (fun _ => example_solver SolverStatus.failed true).

(** [A] has been released again, at 300. *)
Definition released_env : @Env string string unit string :=
  example_env (example_times 300 200)
              (fun _ => example_solver SolverStatus.solved false).

(** A memcache that holds [example_entry] under the key pinned to the
    resolver's timestamp. *)
Definition pinned_world (env : @Env string string unit string)
    (self : @ResolverObj string unit string) : @World string string unit string :=
  {| self_ := self;
     memcache := {[ _memcache_key env self true := example_entry ]};
     solver_calls := [] |}.




(** The dynamic section of an elf, as [readelf -d] prints it; [libfoo.so]
    has an rpath and a runpath, [libbar.so] neither, and readelf fails on
    everything else. *)
Definition readelf_lines (with_rpath : bool) : list string :=
  ["";
   "Dynamic section at offset 0x2d88 contains 27 entries:";
   "  Tag        Type                         Name/Value";
   " 0x0000000000000001 (NEEDED)             Shared library: [libc.so.6]"]
  ++ (if with_rpath
      then [" 0x000000000000000f (RPATH)              Library rpath: [/xxx:/yyy]";
            " 0x000000000000001d (RUNPATH)            Library runpath: [/zzz]"]
      else [])
  ++ [" 0x000000000000000c (INIT)               0x1000"; ""].

Definition example_popen (nargs : list string) (env : option (gmap string string))
    : Completed :=
  match nargs with
  | ["readelf"; "-d"; "libfoo.so"] =>
      mkCompleted (String.concat (String newline "") (readelf_lines true)) "" 0
  | ["readelf"; "-d"; "libbar.so"] =>
      mkCompleted (String.concat (String newline "") (readelf_lines false)) "" 0
  | _ => mkCompleted "" "readelf: Error: Not an ELF file" 1
  end.

(** Command lines of [rez-bind], over a configuration with a release path
    and a local path; a bind gives one variant, named after the
    package. *)
Definition example_bind_env : @cli_bind.Env string string :=
  {| cli_bind.release_packages_path := "/packages/release";
     cli_bind.local_packages_path := "/home/user/packages";
     cli_bind.sorted_bind_modules :=
       [["cmake"; "/rez/bind/cmake.py"]; ["python"; "/rez/bind/python.py"]];
     cli_bind.columnise := map (String.concat " ");
     cli_bind.bind_package := fun _ name _ _ _ _ _ => [name];
     cli_bind.request_name := fun pkg => pkg;
     cli_bind.request_range := fun _ => "";
     cli_bind.is_any := fun range => String.eqb range "" |}.

Definition example_bind_opts (quickstart release list_ search : bool)
    (install_path PKG : option string) : cli_bind.Opts :=
  {| cli_bind.quickstart := quickstart;
     cli_bind.release := release;
     cli_bind.install_path := install_path;
     cli_bind.no_deps := false;
     cli_bind.list_ := list_;
     cli_bind.search := search;
     cli_bind.PKG := PKG;
     cli_bind.BIND_ARGS := [] |}.

(** Command lines of [rez-context], outside of any resolved environment;
    the context in [no_graph.rxt] has no graph. *)
Definition example_context_env : @cli_context.Env string :=
  {| cli_context.status_context_file := None;
     cli_context.read_from_buffer := "STDIN";
     cli_context.load := fun path => path;
     cli_context.resolve := fun _ _ _ => "resolved";
     cli_context.has_graph := fun rc => negb (String.eqb rc "no_graph.rxt");
     cli_context.get_dependency_graph := fun _ => "digraph deps {}";
     cli_context.graph_as_dot := fun _ => "digraph g {}";
     cli_context.requested_packages := fun _ _ => ["A"; "B"];
     cli_context.resolved_uris := fun _ => ["/packages/A/1.0/package.py"];
     cli_context.resolved_qualified_names := fun _ => ["A-1.0"];
     cli_context.package_paths := fun _ => ["/packages"];
     cli_context.rc_which := fun _ _ _ => None;
     cli_context.get_environ := fun _ _ => {[ "A_ROOT" := "/packages/A/1.0" ]};
     cli_context.get_shell_code := fun _ _ _ _ => "export A_ROOT=/packages/A/1.0";
     cli_context.request_name := fun pkg => pkg;
     cli_context.prune_graph := fun gstr _ => gstr;
     cli_context.columnise := map (String.concat " ");
     cli_context.sorted_items := fun environ =>
       map (fun kv => [kv.1; kv.2]) (map_to_list environ);
     cli_context.pformat := fun _ => "{'A_ROOT': '/packages/A/1.0'}";
     cli_context.json_dumps := fun _ => "{}" |}.

Definition example_context_opts (RXT which : option string)
    (print_graph interpret no_env tools : bool) (format : string)
    : cli_context.Opts :=
  {| cli_context.RXT := RXT;
     cli_context.print_request := false;
     cli_context.print_resolve := false;
     cli_context.source_order := false;
     cli_context.show_uris := false;
     cli_context.tools := tools;
     cli_context.which := which;
     cli_context.graph := false;
     cli_context.dependency_graph := false;
     cli_context.print_graph := print_graph;
     cli_context.write_graph := None;
     cli_context.prune_pkg := None;
     cli_context.interpret := interpret;
     cli_context.format := format;
     cli_context.style := "file";
     cli_context.no_env := no_env;
     cli_context.diff := None;
     cli_context.fetch := false;
     cli_context.verbose := 0 |}.

(** * Properties *)

Section Properties.

Context {Requirement VariantHandle Graph Resource : Type}.
Variable env : @Env Requirement VariantHandle Graph Resource.

Implicit Types (w : @World Requirement VariantHandle Graph Resource).
Implicit Types (self : @ResolverObj Requirement Graph Resource).
Implicit Types (data : @Entry VariantHandle Graph).
Implicit Types (solver : @Solver VariantHandle Graph).
Implicit Types (cached solver_dict : @SolverDict VariantHandle Graph).
Implicit Types (variants : list (@Variant Resource)).


Lemma ResolverStatus_eqb_eq a b : ResolverStatus.eqb a b = true <-> a = b.
Proof. destruct a, b; simpl; split; congruence. Qed.

Lemma ResolverStatus_eqb_neq a b : ResolverStatus.eqb a b = false <-> a <> b.
Proof. destruct a, b; simpl; split; congruence. Qed.

Lemma SolverStatus_eqb_eq a b : SolverStatus.eqb a b = true <-> a = b.
Proof. destruct a, b; simpl; split; congruence. Qed.

(** ** The memcache key *)

Lemma memcache_key_untimestamped self :
  _memcache_key env self false =
  [KTuple (map (str env) (package_requests self));
   KTuple (map (repository_uid env) (package_paths self));
   KBool (building self);
   KBool (config_prune_failed_graph env);
   KInt (start_depth self);
   KInt (max_depth self)].
Proof. reflexivity. Qed.

Lemma memcache_key_timestamped self :
  timestamp self <> 0 ->
  _memcache_key env self true =
  _memcache_key env self false ++ [KInt (timestamp self)].
Proof.
  intros HT. unfold _memcache_key. simpl.
  destruct (Z.eqb_spec (timestamp self) 0); [contradiction | reflexivity].
Qed.

Lemma memcache_key_timestamped_ne self :
  timestamp self <> 0 ->
  _memcache_key env self true <> _memcache_key env self false.
Proof.
  intros HT. rewrite memcache_key_timestamped by assumption.
  intros Heq. apply (f_equal length) in Heq.
  rewrite length_app in Heq. simpl in Heq. lia.
Qed.

(** C10: with [timestamp = 0] the timestamped and the non-timestamped key
    are the same tuple, since the timestamp is appended only when it is
    nonzero. *)
Theorem memcache_key_timestamp_zero self :
  timestamp self = 0 ->
  _memcache_key env self true = _memcache_key env self false.
Proof.
  intros HT. unfold _memcache_key. rewrite HT. reflexivity.
Qed.







(** ** Construction *)

(** C7: with both depths nonzero and [max_depth < start_depth] the
    constructor fails on its assertion; it succeeds when either depth is
    zero or [max_depth >= start_depth]. *)
Theorem Resolver_init_depths requests paths T b max_d start_d c :
  (max_d <> 0 -> start_d <> 0 -> max_d < start_d ->
     Resolver_init (Graph := Graph) (Resource := Resource)
       requests paths T b max_d start_d c = Raise AssertionError)
  /\ (max_d = 0 \/ start_d = 0 \/ max_d >= start_d ->
      exists self,
        Resolver_init (Graph := Graph) (Resource := Resource)
          requests paths T b max_d start_d c = Ok self
        /\ max_depth self = max_d /\ start_depth self = start_d
        /\ status_ self = ResolverStatus.pending
        /\ resolved_packages self = None).
Proof.
  unfold Resolver_init. split.
  - intros Hm Hs Hlt.
    destruct (Z.eqb_spec max_d 0); [contradiction |].
    destruct (Z.eqb_spec start_d 0); [contradiction |].
    destruct (Z.leb_spec start_d max_d); [lia | reflexivity].
  - intros Hok.
    destruct (Z.eqb_spec max_d 0), (Z.eqb_spec start_d 0),
             (Z.leb_spec start_d max_d); simpl;
      try (eexists; repeat split; reflexivity); lia.
Qed.

(** ** Storing a solve *)

Lemma collect_release_info_unknown self variants rs rt st :
  (exists v, v ∈ variants /\ release_time_of env self v = 0) ->
  collect_release_info env self variants rs rt st = None.
Proof.
  revert rs rt st.
  induction variants as [| v rest IH]; intros rs rt st [v0 [Hin Hz]].
  - inversion Hin.
  - simpl. fold (release_time_of env self v).
    destruct (Z.eqb_spec (release_time_of env self v) 0) as [| Hnz]; [reflexivity |].
    apply IH. exists v0. split; [| assumption].
    apply elem_of_cons in Hin as [-> | Hin]; [contradiction | assumption].
Qed.

Lemma collect_release_info_known self variants rs rt st :
  (forall v, v ∈ variants -> release_time_of env self v <> 0) ->
  collect_release_info env self variants rs rt st =
  Some (rs || (negb (timestamp self =? 0)
               && existsb (fun v => timestamp self <? release_time_of env self v) variants),
        fold_left (fun m v => <[name v := release_time_of env self v]> m) variants rt,
        fold_left (fun m v => <[name v := state_of env v]> m) variants st).
Proof.
  revert rs rt st.
  induction variants as [| v rest IH]; intros rs rt st Hnz; simpl.
  - rewrite andb_false_r, orb_false_r. reflexivity.
  - fold (release_time_of env self v). fold (state_of env v).
    destruct (Z.eqb_spec (release_time_of env self v) 0) as [Hz | _].
    { exfalso. apply (Hnz v); [left | assumption]. }
    rewrite IH by (intros v' Hv'; apply Hnz; right; assumption).
    do 3 f_equal.
    destruct (negb (timestamp self =? 0)), (timestamp self <? release_time_of env self v),
             rs; simpl; reflexivity.
Qed.

Lemma release_times_lookup self variants (rt : gmap string Z) n :
  fold_left (fun m v => <[name v := release_time_of env self v]> m) variants rt !! n =
  if decide (n ∈ map name variants)
  then Some (get_last_release_time env n (package_paths self))
  else rt !! n.
Proof.
  revert rt. induction variants as [| v rest IH]; intros rt; simpl.
  - destruct (decide (n ∈ [])) as [Hin | _]; [inversion Hin | reflexivity].
  - rewrite IH.
    destruct (decide (n ∈ map name rest)) as [Hin | Hnin].
    + rewrite decide_True by (right; assumption). reflexivity.
    + destruct (decide (name v = n)) as [<- | Hne].
      * rewrite decide_True by left. apply lookup_insert_eq.
      * rewrite decide_False.
        -- apply lookup_insert_ne. assumption.
        -- intros Hin. apply elem_of_cons in Hin as [-> | Hin]; contradiction.
Qed.

Lemma variant_states_lookup variants (st : gmap string StateHandle) n :
  fold_left (fun m v => <[name v := state_of env v]> m) variants st !! n =
  match last (filter (fun v => name v = n) variants) with
  | Some v => Some (state_of env v)
  | None => st !! n
  end.
Proof.
  revert st. induction variants as [| v rest IH]; intros st; simpl.
  - reflexivity.
  - rewrite IH, filter_cons.
    destruct (decide (name v = n)) as [<- | Hne].
    + rewrite last_cons.
      destruct (last (filter (fun v0 => name v0 = name v) rest));
        [reflexivity | apply lookup_insert_eq].
    + destruct (last (filter (fun v0 => name v0 = n) rest));
        [reflexivity | apply lookup_insert_ne; assumption].
Qed.

Lemma existsb_elem_of {A} (f : A -> bool) (l : list A) :
  existsb f l = true <-> exists x, x ∈ l /\ f x = true.
Proof.
  rewrite existsb_exists. split; intros [x [Hin Hf]]; exists x; split;
    try assumption; apply list_elem_of_In; assumption.
Qed.

(** C5: when the resolver's status is not [solved], storing leaves the
    memcache (and everything else) as it was. *)
Theorem set_cached_solve_not_solved solver_dict w :
  status_ (self_ w) <> ResolverStatus.solved ->
  _set_cached_solve env solver_dict w = (Ok tt, w).
Proof.
  intros Hst. unfold _set_cached_solve, bind, get_self, ret. simpl.
  destruct (caching_enabled env (self_ w)); simpl; [| reflexivity].
  apply ResolverStatus_eqb_neq in Hst. rewrite Hst. reflexivity.
Qed.

(** C4: when the repository reports the release time 0 for the name of
    some resolved variant, storing sets no key at all, and the resolver
    with the result of the solve is left as it was. *)
Theorem set_cached_solve_unknown_release_time solver_dict w variants :
  status_ (self_ w) = ResolverStatus.solved ->
  resolved_packages_ (self_ w) = Some variants ->
  (exists v, v ∈ variants
             /\ get_last_release_time env (name v) (package_paths (self_ w)) = 0) ->
  _set_cached_solve env solver_dict w = (Ok tt, w)
  /\ memcache (snd (_set_cached_solve env solver_dict w)) = memcache w
  /\ self_ (snd (_set_cached_solve env solver_dict w)) = self_ w.
Proof.
  intros Hst Hres Hzero.
  assert (Hrun : _set_cached_solve env solver_dict w = (Ok tt, w)).
  { unfold _set_cached_solve, bind, get_self, ret. simpl.
    destruct (caching_enabled env (self_ w)); simpl; [| reflexivity].
    rewrite Hst, Hres. simpl.
    rewrite collect_release_info_unknown by exact Hzero. reflexivity. }
  rewrite Hrun. auto.
Qed.

(** C2: with caching on, status [solved] and every release time known,
    storing sets exactly one key to the triple [(solver_dict,
    release_times, variant_states)]: the timestamped key when the
    timestamp is nonzero and some resolved package was released after it,
    the non-timestamped key otherwise. *)
Theorem set_cached_solve_solved solver_dict w variants :
  caching_enabled env (self_ w) = true ->
  status_ (self_ w) = ResolverStatus.solved ->
  resolved_packages_ (self_ w) = Some variants ->
  (forall v, v ∈ variants ->
             get_last_release_time env (name v) (package_paths (self_ w)) <> 0) ->
  let self := self_ w in
  let T := timestamp self in
  let newer := exists v, v ∈ variants
                 /\ T < get_last_release_time env (name v) (package_paths self) in
  exists key release_times variant_states,
    _set_cached_solve env solver_dict w =
      (Ok tt, mkWorld self
                (<[key := mkEntry solver_dict release_times variant_states]> (memcache w))
                (solver_calls w))
    /\ ((T <> 0 /\ newer
         /\ key = _memcache_key env self true
         /\ key <> _memcache_key env self false)
        \/ (~ (T <> 0 /\ newer) /\ key = _memcache_key env self false))
    /\ (forall n, release_times !! n =
                  if decide (n ∈ map name variants)
                  then Some (get_last_release_time env n (package_paths self))
                  else None)
    /\ (forall n, variant_states !! n =
                  match last (filter (fun v => name v = n) variants) with
                  | Some v => Some (get_variant_state_handle env (resource v))
                  | None => None
                  end).
Proof.
  intros Hc Hst Hres Hnz self T newer.
  unfold _set_cached_solve, bind, get_self, ret. simpl.
  rewrite Hc, Hst, Hres. simpl.
  rewrite collect_release_info_known by exact Hnz. simpl.
  eexists _, _, _. split; [reflexivity |]. split; [| split].
  - fold self. fold T.
    destruct (Z.eqb_spec T 0) as [HT0 | HT]; simpl.
    { right. split; [| reflexivity]. intros [HT _]. contradiction. }
    destruct (existsb (fun v => T <? release_time_of env self v) variants) eqn:Hex.
    + left. apply existsb_elem_of in Hex as [v [Hin Hlt]].
      apply Z.ltb_lt in Hlt.
      split; [assumption |]. split; [exists v; split; assumption |].
      split; [reflexivity |]. apply memcache_key_timestamped_ne. assumption.
    + right. split; [| reflexivity].
      intros [_ [v [Hin Hlt]]].
      assert (Htrue : existsb (fun v => T <? release_time_of env self v) variants = true).
      { apply existsb_elem_of. exists v. split; [assumption |].
        apply Z.ltb_lt. assumption. }
      congruence.
  - intros n. rewrite release_times_lookup.
    destruct (decide (n ∈ map name variants)); [reflexivity | apply lookup_empty].
  - intros n. rewrite variant_states_lookup.
    destruct (last (filter (fun v => name v = n) variants));
      [reflexivity | apply lookup_empty].
Qed.

(** ** Looking a solve up *)

(** What the three predicates of the lookup compute. *)

Lemma packages_changed_spec key data w b :
  _packages_changed env key data w = (Ok b, w) <->
  exists variant_handles,
    sd_variant_handles (solver_dict data) = Some variant_handles
    /\ b = existsb (variant_modified env data) variant_handles.
Proof.
  unfold _packages_changed.
  destruct (sd_variant_handles (solver_dict data)) as [hs |]; unfold ret, raise.
  - split.
    + intros Heq. exists hs. split; [reflexivity | congruence].
    + intros [hs' [Hs ->]]. congruence.
  - split; [discriminate | intros [hs' [Hs _]]; discriminate].
Qed.

Lemma variant_modified_true data h :
  variant_modified env data h = true <->
  dict_get (variant_states_dict data) (name (get_variant env h))
    <> get_variant_state_handle env (resource (get_variant env h)).
Proof.
  unfold variant_modified. rewrite negb_true_iff, bool_decide_eq_false. reflexivity.
Qed.

Lemma releases_since_solve_true self key data :
  _releases_since_solve env self key data = true <->
  exists package_name release_time,
    release_times_dict data !! package_name = Some release_time
    /\ get_last_release_time env package_name (package_paths self) <> release_time.
Proof.
  unfold _releases_since_solve. rewrite existsb_elem_of. split.
  - intros [[n t] [Hin Hne]]. exists n, t.
    apply elem_of_map_to_list in Hin. split; [assumption |].
    apply negb_true_iff, Z.eqb_neq in Hne. assumption.
  - intros [n [t [Hin Hne]]]. exists (n, t). split.
    + apply elem_of_map_to_list. assumption.
    + apply negb_true_iff, Z.eqb_neq. assumption.
Qed.

Lemma timestamp_is_earlier_true self key data :
  _timestamp_is_earlier self key data = true <->
  exists package_name release_time,
    release_times_dict data !! package_name = Some release_time
    /\ timestamp self < release_time.
Proof.
  unfold _timestamp_is_earlier. rewrite existsb_elem_of. split.
  - intros [[n t] [Hin Hlt]]. exists n, t.
    apply elem_of_map_to_list in Hin. split; [assumption |].
    apply Z.ltb_lt in Hlt. assumption.
  - intros [n [t [Hin Hlt]]]. exists (n, t). split.
    + apply elem_of_map_to_list. assumption.
    + apply Z.ltb_lt. assumption.
Qed.

(** The lookup of a resolver without a timestamp, case by case. *)
Lemma lookup_no_timestamp_eq w :
  timestamp (self_ w) = 0 ->
  caching_enabled env (self_ w) = true ->
  _get_cached_solve env w =
  let key := _memcache_key env (self_ w) false in
  match memcache w !! key with
  | None => (Ok None, w)
  | Some data =>
      match sd_variant_handles (solver_dict data) with
      | None => (Raise TypeError, w)
      | Some variant_handles =>
          if existsb (variant_modified env data) variant_handles
             || _releases_since_solve env (self_ w) key data
          then (Ok None, mkWorld (self_ w) (delete key (memcache w)) (solver_calls w))
          else (Ok (Some (solver_dict data)), w)
      end
  end.
Proof.
  intros HT Hc.
  unfold _get_cached_solve, bind, get_self, _retrieve, memcache_get, ret. simpl.
  rewrite Hc, HT. simpl.
  destruct (memcache w !! _memcache_key env (self_ w) false) as [data |];
    [| reflexivity].
  unfold _packages_changed.
  destruct (sd_variant_handles (solver_dict data)) as [hs |]; [| reflexivity].
  unfold ret.
  destruct (existsb (variant_modified env data) hs); simpl; [reflexivity |].
  destruct (_releases_since_solve env (self_ w) _ data); reflexivity.
Qed.

(** C3: a resolver with timestamp 0 and caching on gets a hit, the stored
    [solver_dict], exactly when the non-timestamped entry exists and
    neither [_packages_changed] nor [_releases_since_solve] holds of it;
    when either holds, the lookup deletes the entry and returns a miss. *)
Theorem get_cached_solve_no_timestamp w :
  timestamp (self_ w) = 0 ->
  caching_enabled env (self_ w) = true ->
  let self := self_ w in
  let key := _memcache_key env self false in
  (forall cached w',
      _get_cached_solve env w = (Ok (Some cached), w') <->
      w' = w /\ exists data,
        memcache w !! key = Some data
        /\ cached = solver_dict data
        /\ _packages_changed env key data w = (Ok false, w)
        /\ _releases_since_solve env self key data = false)
  /\ (forall data,
        memcache w !! key = Some data ->
        _packages_changed env key data w = (Ok true, w)
        \/ (_packages_changed env key data w = (Ok false, w)
            /\ _releases_since_solve env self key data = true) ->
        _get_cached_solve env w =
          (Ok None, mkWorld self (delete key (memcache w)) (solver_calls w))
        /\ memcache (snd (_get_cached_solve env w)) !! key = None).
Proof.
  intros HT Hc self key.
  rewrite (lookup_no_timestamp_eq w HT Hc). fold self. fold key. simpl.
  split.
  - intros sd w'. split.
    + destruct (memcache w !! key) as [data |] eqn:Hget; [| discriminate].
      destruct (sd_variant_handles (solver_dict data)) as [hs |] eqn:Hhs;
        [| discriminate].
      destruct (existsb (variant_modified env data) hs) eqn:Hpc; simpl; [discriminate |].
      destruct (_releases_since_solve env self key data) eqn:Hrs; [discriminate |].
      intros Heq. inversion Heq; subst. split; [reflexivity |].
      exists data. repeat split; try reflexivity; try assumption.
      apply packages_changed_spec. exists hs. split; [assumption | congruence].
    + intros [-> [data [Hget [-> [Hpc Hrs]]]]]. rewrite Hget.
      apply packages_changed_spec in Hpc as [hs [Hhs Hpc]].
      rewrite Hhs, <- Hpc, Hrs. reflexivity.
  - intros data Hget Hstale. rewrite Hget.
    assert (Hdel : forall hs,
               sd_variant_handles (solver_dict data) = Some hs ->
               existsb (variant_modified env data) hs
               || _releases_since_solve env self key data = true ->
               match sd_variant_handles (solver_dict data) with
               | Some variant_handles =>
                   if existsb (variant_modified env data) variant_handles
                      || _releases_since_solve env self key data
                   then (Ok None, mkWorld self (delete key (memcache w)) (solver_calls w))
                   else (Ok (Some (solver_dict data)), w)
               | None => (Raise TypeError, w)
               end = (Ok None, mkWorld self (delete key (memcache w)) (solver_calls w))).
    { intros hs Hhs Htrue. rewrite Hhs, Htrue. reflexivity. }
    destruct Hstale as [Hpc | [Hpc Hrs]];
      apply packages_changed_spec in Hpc as [hs [Hhs Hpc]].
    + rewrite (Hdel hs Hhs) by (rewrite <- Hpc; reflexivity).
      split; [reflexivity | apply lookup_delete_eq].
    + rewrite (Hdel hs Hhs) by (rewrite Hrs; apply orb_true_r).
      split; [reflexivity | apply lookup_delete_eq].
Qed.

(** C1: a resolver with a nonzero timestamp finds a current, reusable
    non-timestamped entry; the lookup then calls [_hit] without its
    argument and raises [TypeError] instead of returning the entry's
    [solver_dict]. *)
Theorem get_cached_solve_reusable_entry_raises w data :
  timestamp (self_ w) <> 0 ->
  caching_enabled env (self_ w) = true ->
  let self := self_ w in
  let key := _memcache_key env self false in
  memcache w !! key = Some data ->
  _packages_changed env key data w = (Ok false, w) ->
  _releases_since_solve env self key data = false ->
  _timestamp_is_earlier self key data = false ->
  _get_cached_solve env w = (Raise TypeError, w)
  /\ _get_cached_solve env w <> (Ok (Some (solver_dict data)), w).
Proof.
  intros HT Hc self key Hget Hpc Hrs Hte.
  assert (Hrun : _get_cached_solve env w = (Raise TypeError, w)).
  { unfold _get_cached_solve, bind, get_self, _retrieve, memcache_get, ret. simpl.
    rewrite Hc. simpl.
    destruct (Z.eqb_spec (timestamp (self_ w)) 0) as [| _]; [contradiction |]. simpl.
    fold self. fold key. rewrite Hget. unfold try_non_timestamped, bind.
    rewrite Hpc, Hrs, Hte. reflexivity. }
  rewrite Hrun. split; [reflexivity | discriminate].
Qed.

(** ** The iterative solve *)

Lemma ceil_log2_ratio_spec max_d start_d :
  0 < start_d <= max_d ->
  0 <= ceil_log2_ratio max_d start_d
  /\ max_d <= start_d * 2 ^ ceil_log2_ratio max_d start_d
  /\ (forall j, 0 <= j -> max_d <= start_d * 2 ^ j ->
                ceil_log2_ratio max_d start_d <= j).
Proof.
  intros [Hs Hm]. unfold ceil_log2_ratio.
  set (q := (max_d + start_d - 1) / start_d).
  assert (Hq : max_d <= start_d * q < max_d + start_d).
  { pose proof (Z.div_mod (max_d + start_d - 1) start_d ltac:(lia)) as Hdm.
    pose proof (Z.mod_pos_bound (max_d + start_d - 1) start_d Hs) as Hr.
    fold q in Hdm. lia. }
  assert (Hq1 : 1 <= q) by nia.
  split; [apply Z.log2_up_nonneg |]. split.
  - pose proof (Z.log2_log2_up_spec q ltac:(lia)) as [_ Hup]. nia.
  - intros j Hj Hle.
    assert (Hqj : q <= 2 ^ j).
    { assert (0 < 2 ^ j) by (apply Z.pow_pos_nonneg; lia). nia. }
    rewrite <- (Z.log2_up_pow2 j Hj). apply Z.log2_up_le_mono. assumption.
Qed.

Lemma iterative_solve_step fuel self depth w :
  iterative_solve env (S fuel) self depth w =
  let solver := solver_at env self depth in
  let w1 := logged w [kwargs env self (Some depth)] in
  if stops solver || (negb (max_depth self =? 0) && (max_depth self <=? depth))
  then (Ok solver, w1)
  else iterative_solve env fuel self
         (if negb (max_depth self =? 0)
          then Z.min (depth * 2) (max_depth self) else depth * 2) w1.
Proof.
  simpl. unfold bind, Solver_solve, stops, solver_at, logged, ret.
  destruct (negb (is_partial _) || _ || _); reflexivity.
Qed.

Lemma logged_logged w calls calls' :
  logged (logged w calls) calls' = logged w (calls ++ calls').
Proof. unfold logged. simpl. rewrite <- app_assoc. reflexivity. Qed.

(** With a depth limit the loop is over after [k + 1] solvers at most,
    where [k] doublings take the depth to the limit. *)
Lemma iterative_solve_bounded self (k : nat) :
  0 < max_depth self ->
  forall depth fuel w,
    0 < depth ->
    max_depth self <= depth * 2 ^ Z.of_nat k ->
    (k < fuel)%nat ->
    exists solver calls,
      iterative_solve env fuel self depth w = (Ok solver, logged w calls)
      /\ (1 <= length calls <= k + 1)%nat.
Proof.
  intros Hmax. induction k as [| k IH]; intros depth fuel w Hd Hle Hfuel;
    (destruct fuel as [| fuel]; [lia |]); rewrite iterative_solve_step; simpl.
  - assert (Hstop : negb (max_depth self =? 0) && (max_depth self <=? depth) = true).
    { apply andb_true_iff. split.
      - apply negb_true_iff, Z.eqb_neq. lia.
      - apply Z.leb_le. simpl in Hle. lia. }
    rewrite Hstop, orb_true_r.
    eexists _, _. split; [reflexivity | simpl; lia].
  - destruct (stops (solver_at env self depth)
              || negb (max_depth self =? 0) && (max_depth self <=? depth)).
    + eexists _, _. split; [reflexivity | simpl; lia].
    + assert (Hnz : negb (max_depth self =? 0) = true)
        by (apply negb_true_iff, Z.eqb_neq; lia).
      rewrite Hnz.
      assert (Hpow : 0 < 2 ^ Z.of_nat k) by (apply Z.pow_pos_nonneg; lia).
      destruct (IH (Z.min (depth * 2) (max_depth self)) fuel
                   (logged w [kwargs env self (Some depth)]))
        as [solver [calls [Hrun [Hlo Hhi]]]].
      * lia.
      * rewrite Nat2Z.inj_succ, Z.pow_succ_r in Hle by lia.
        destruct (Z.min_spec (depth * 2) (max_depth self)) as [[_ ->] | [_ ->]]; nia.
      * lia.
      * rewrite Hrun, logged_logged.
        eexists _, _. split; [reflexivity |]. simpl. lia.
Qed.

(** Without a depth limit the loop ends at the first depth at which the
    solver is solved or not partial. *)
Lemma iterative_solve_unbounded self :
  max_depth self = 0 ->
  forall (n : nat) depth fuel w,
    (n < fuel)%nat ->
    (forall i : nat, (i < n)%nat ->
                     stops (solver_at env self (depth * 2 ^ Z.of_nat i)) = false) ->
    stops (solver_at env self (depth * 2 ^ Z.of_nat n)) = true ->
    iterative_solve env fuel self depth w =
    (Ok (solver_at env self (depth * 2 ^ Z.of_nat n)),
     logged w (map (fun i : nat => kwargs env self (Some (depth * 2 ^ Z.of_nat i)))
                   (seq 0 (S n)))).
Proof.
  intros Hmax. induction n as [| n IH]; intros depth fuel w Hfuel Hgo Hstop;
    (destruct fuel as [| fuel]; [lia |]); rewrite iterative_solve_step; cbv zeta.
  - change (2 ^ Z.of_nat 0) with 1 in *. rewrite Z.mul_1_r in *.
    rewrite Hstop. cbn [orb map seq]. change (2 ^ Z.of_nat 0) with 1.
    rewrite Z.mul_1_r. reflexivity.
  - pose proof (Hgo O ltac:(lia)) as H0.
    change (2 ^ Z.of_nat 0) with 1 in H0. rewrite Z.mul_1_r in H0.
    rewrite H0, Hmax. cbn [orb negb andb Z.eqb].
    assert (Hshift : forall i : nat,
               depth * 2 * 2 ^ Z.of_nat i = depth * 2 ^ Z.of_nat (S i)).
    { intros i. rewrite Nat2Z.inj_succ, Z.pow_succ_r by lia. lia. }
    rewrite (IH (depth * 2) fuel).
    + rewrite logged_logged, Hshift. do 3 f_equal.
      change (seq 0 (S (S n))) with (0%nat :: seq 1 (S n)).
      rewrite <- (seq_shift (S n) 0), map_cons, map_map.
      change (2 ^ Z.of_nat 0) with 1. rewrite Z.mul_1_r.
      cbn [app]. f_equal.
      apply map_ext. intros i. rewrite Hshift. reflexivity.
    + lia.
    + intros i Hi. rewrite Hshift. apply Hgo. lia.
    + rewrite Hshift. assumption.
Qed.

Lemma solve_iterative fuel w :
  start_depth (self_ w) <> 0 ->
  _solve env fuel w = iterative_solve env fuel (self_ w) (start_depth (self_ w)) w.
Proof.
  intros Hs. unfold _solve, bind, get_self.
  destruct (Z.eqb_spec (start_depth (self_ w)) 0); [contradiction | reflexivity].
Qed.

(** C6: with [0 < start_depth <= max_depth] the iterative solve returns
    after at most [⌈log₂(max_depth / start_depth)⌉ + 1] solvers; every
    iteration ends the loop when its solver is solved or not partial; and
    with [max_depth = 0] the loop ends at the first such solver. *)
Theorem solve_iterative_terminates w :
  let self := self_ w in
  0 < start_depth self ->
  (0 < max_depth self -> start_depth self <= max_depth self ->
   forall fuel,
     (Z.to_nat (ceil_log2_ratio (max_depth self) (start_depth self)) < fuel)%nat ->
     exists solver calls,
       _solve env fuel w = (Ok solver, logged w calls)
       /\ (1 <= length calls
           <= Z.to_nat (ceil_log2_ratio (max_depth self) (start_depth self)) + 1)%nat)
  /\ (forall fuel depth w0,
        stops (solver_at env self depth) = true ->
        iterative_solve env (S fuel) self depth w0 =
          (Ok (solver_at env self depth), logged w0 [kwargs env self (Some depth)]))
  /\ (max_depth self = 0 ->
      forall (n : nat) fuel,
        (n < fuel)%nat ->
        (forall i : nat, (i < n)%nat ->
           stops (solver_at env self (start_depth self * 2 ^ Z.of_nat i)) = false) ->
        stops (solver_at env self (start_depth self * 2 ^ Z.of_nat n)) = true ->
        _solve env fuel w =
          (Ok (solver_at env self (start_depth self * 2 ^ Z.of_nat n)),
           logged w (map (fun i : nat =>
                            kwargs env self (Some (start_depth self * 2 ^ Z.of_nat i)))
                         (seq 0 (S n))))).
Proof.
  intros self Hstart. split; [| split].
  - intros Hmax Hle fuel Hfuel.
    rewrite solve_iterative by (fold self; lia).
    destruct (ceil_log2_ratio_spec (max_depth self) (start_depth self))
      as [Hk [Hpow _]]; [lia |].
    apply iterative_solve_bounded; try assumption.
    rewrite Z2Nat.id by assumption. assumption.
  - intros fuel depth w0 Hstop.
    rewrite iterative_solve_step. simpl. rewrite Hstop. reflexivity.
  - intros Hmax n fuel Hfuel Hgo Hstop.
    rewrite solve_iterative by (fold self; lia).
    apply iterative_solve_unbounded; assumption.
Qed.

(** ** The result of a solve *)

Lemma packages_changed_cases key data w :
  (exists b, _packages_changed env key data w = (Ok b, w))
  \/ _packages_changed env key data w = (Raise TypeError, w).
Proof.
  unfold _packages_changed, ret, raise.
  destruct (sd_variant_handles (solver_dict data)); eauto.
Qed.

(** The first half of the timestamped lookup never returns an entry. *)
Lemma try_non_timestamped_inv self key (found : option Entry) w r w' :
  try_non_timestamped env self key found w = (r, w') ->
  self_ w' = self_ w
  /\ solver_calls w' = solver_calls w
  /\ (memcache w' = memcache w \/ memcache w' = delete key (memcache w))
  /\ (forall result, r <> Ok (Some result)).
Proof.
  unfold try_non_timestamped. destruct found as [data |].
  - unfold bind.
    destruct (packages_changed_cases key data w) as [[b ->] | ->].
    + unfold _delete_cache_entry, memcache_delete, _hit, raise, ret.
      destruct b; [| destruct (_releases_since_solve env self key data);
                      [| destruct (negb (_timestamp_is_earlier self key data))]];
        intros H; inversion H; subst; simpl; repeat split; auto; discriminate.
    + intros H; inversion H; subst. repeat split; auto; discriminate.
  - unfold ret. intros H; inversion H; subst. repeat split; auto; discriminate.
Qed.

(** The lookup only reads the resolver and only deletes from the
    memcache; what it returns was in the memcache. *)
Lemma get_cached_solve_inv w r w' :
  _get_cached_solve env w = (r, w') ->
  self_ w' = self_ w
  /\ solver_calls w' = solver_calls w
  /\ (forall key data, memcache w' !! key = Some data ->
                       memcache w !! key = Some data)
  /\ (forall cached, r = Ok (Some cached) ->
                     exists key data,
                       memcache w !! key = Some data /\ cached = solver_dict data).
Proof.
  assert (Hsub : forall (k k' : Key) (m m' : gmap Key Entry),
             m' = m \/ m' = delete k m ->
             forall data, m' !! k' = Some data -> m !! k' = Some data).
  { intros k k' m m' [-> | ->] data Hl; [assumption |].
    apply lookup_delete_Some in Hl as [_ Hl]. assumption. }
  unfold _get_cached_solve, bind, get_self, _retrieve, memcache_get, ret, _miss.
  simpl.
  destruct (negb (caching_enabled env (self_ w))).
  { intros H; inversion H; subst. repeat split; auto. discriminate. }
  destruct (negb (timestamp (self_ w) =? 0)).
  - match goal with
    | |- context [try_non_timestamped env ?s ?k ?d ?w0] =>
        destruct (try_non_timestamped env s k d w0) as [[[result |] | e |] w1] eqn:Htry
    end;
      apply try_non_timestamped_inv in Htry as (Hs1 & Hc1 & Hm1 & Hno).
    + exfalso. exact (Hno result eq_refl).
    + destruct (memcache w1 !! _memcache_key env (self_ w1) true)
        as [data1 |] eqn:Hl1.
      * destruct (packages_changed_cases
                    (_memcache_key env (self_ w1) true) data1 w1)
          as [[b ->] | ->].
        -- unfold _delete_cache_entry, memcache_delete, _hit, ret.
           destruct b; intros H; inversion H; subst; simpl;
             (split; [assumption |]); (split; [assumption |]); split.
           ++ intros key data Hl. apply lookup_delete_Some in Hl as [_ Hl].
              revert Hl. apply (Hsub _ _ _ _ Hm1).
           ++ discriminate.
           ++ intros key data. apply (Hsub _ _ _ _ Hm1).
           ++ intros cached Hc. inversion Hc; subst.
              exists (_memcache_key env (self_ w') true), data1.
              split; [| reflexivity]. revert Hl1. apply (Hsub _ _ _ _ Hm1).
        -- intros H; inversion H; subst.
           (split; [assumption |]); (split; [assumption |]); split.
           ++ intros key data. apply (Hsub _ _ _ _ Hm1).
           ++ discriminate.
      * intros H; inversion H; subst.
        (split; [assumption |]); (split; [assumption |]); split.
        -- intros key data. apply (Hsub _ _ _ _ Hm1).
        -- discriminate.
    + intros H; inversion H; subst.
      (split; [assumption |]); (split; [assumption |]); split.
      * intros key data. apply (Hsub _ _ _ _ Hm1).
      * discriminate.
    + intros H; inversion H; subst.
      (split; [assumption |]); (split; [assumption |]); split.
      * intros key data. apply (Hsub _ _ _ _ Hm1).
      * discriminate.
  - destruct (memcache w !! _memcache_key env (self_ w) false)
      as [data0 |] eqn:Hl0.
    + destruct (packages_changed_cases
                  (_memcache_key env (self_ w) false) data0 w)
        as [[b ->] | ->].
      * unfold _delete_cache_entry, memcache_delete, _hit, ret.
        destruct b;
          [| destruct (_releases_since_solve env (self_ w) _ data0)];
          intros H; inversion H; subst; simpl;
          (split; [reflexivity |]); (split; [reflexivity |]); split;
          try discriminate;
          try (intros key data Hl; apply lookup_delete_Some in Hl as [_ Hl];
               exact Hl);
          try (intros key data Hl; exact Hl).
        intros cached Hc. inversion Hc; subst. eauto.
      * intros H; inversion H; subst. repeat split; auto. discriminate.
    + intros H; inversion H; subst. repeat split; auto. discriminate.
Qed.

Lemma set_result_inv cached w r w' :
  _set_result env cached w = (r, w') ->
  memcache w' = memcache w
  /\ solver_calls w' = solver_calls w
  /\ status_ (self_ w') = sd_status cached
  /\ failure_description (self_ w') = sd_failure_description cached
  /\ package_paths (self_ w') = package_paths (self_ w)
  /\ (sd_status cached <> ResolverStatus.solved -> resolved_packages_ (self_ w') = None).
Proof.
  intros H. unfold _set_result, bind, get_self, put_self, raise in H. simpl in H.
  destruct (ResolverStatus.eqb (sd_status cached) ResolverStatus.solved) eqn:Hst.
  - apply ResolverStatus_eqb_eq in Hst.
    destruct (sd_variant_handles cached); inversion H; subst; simpl;
      repeat split; try reflexivity; intros; contradiction.
  - inversion H; subst; simpl. repeat split; reflexivity.
Qed.

Lemma set_from_cache_inv b w :
  exists self',
    set_from_cache b w = (Ok tt, mkWorld self' (memcache w) (solver_calls w))
    /\ status_ self' = status_ (self_ w)
    /\ package_paths self' = package_paths (self_ w)
    /\ start_depth self' = start_depth (self_ w)
    /\ max_depth self' = max_depth (self_ w).
Proof.
  unfold set_from_cache, bind, get_self, put_self. simpl.
  eexists. split; [reflexivity |]. simpl. auto.
Qed.

Lemma iterative_solve_inv fuel self :
  forall depth w r w',
    iterative_solve env fuel self depth w = (r, w') ->
    self_ w' = self_ w /\ memcache w' = memcache w
    /\ (forall solver, r = Ok solver -> exists args, solver = run_solver env args).
Proof.
  induction fuel as [| fuel IH]; intros depth w r w' H.
  - inversion H; subst. repeat split. discriminate.
  - rewrite iterative_solve_step in H. cbv zeta in H.
    destruct (stops (solver_at env self depth) || _).
    + inversion H; subst. simpl. repeat split.
      intros solver Hs. inversion Hs; subst. eexists. reflexivity.
    + apply IH in H as [Hs [Hm Hex]]. simpl in *. auto.
Qed.

Lemma solve_inner_inv fuel w r w' :
  _solve env fuel w = (r, w') ->
  self_ w' = self_ w /\ memcache w' = memcache w
  /\ (forall solver, r = Ok solver -> exists args, solver = run_solver env args).
Proof.
  unfold _solve, bind, get_self, Solver_solve. intros H.
  destruct (negb (start_depth (self_ w) =? 0)).
  - apply iterative_solve_inv in H. exact H.
  - destruct (negb (max_depth (self_ w) =? 0)); inversion H; subst; simpl;
      repeat split; intros solver Hs; inversion Hs; subst; eexists; reflexivity.
Qed.

Lemma set_cached_solve_inv cached w r w' :
  _set_cached_solve env cached w = (r, w') ->
  self_ w' = self_ w
  /\ (memcache w' = memcache w
      \/ (status_ (self_ w) = ResolverStatus.solved
          /\ exists key rt st,
               memcache w' = <[key := mkEntry cached rt st]> (memcache w))).
Proof.
  unfold _set_cached_solve, bind, get_self, memcache_set, ret, raise. simpl.
  intros H.
  destruct (negb (caching_enabled env (self_ w)));
    [inversion H; subst; auto |].
  destruct (ResolverStatus.eqb (status_ (self_ w)) ResolverStatus.solved) eqn:Hst;
    simpl in H; [| inversion H; subst; auto].
  apply ResolverStatus_eqb_eq in Hst.
  destruct (resolved_packages_ (self_ w)); [| inversion H; subst; auto].
  destruct (collect_release_info env _ _ _ _ _) as [[[rs rt] st] |];
    inversion H; subst; simpl; [| auto].
  split; [reflexivity |]. right. split; [assumption |]. eauto.
Qed.

Lemma solver_to_dict_not_solved solver :
  solver_describes_failure env ->
  (exists args, solver = run_solver env args) ->
  sd_status (_solver_to_dict solver) <> ResolverStatus.solved ->
  (sd_status (_solver_to_dict solver) = ResolverStatus.aborted
   /\ sd_failure_description (_solver_to_dict solver) = abort_reason solver
   \/ sd_status (_solver_to_dict solver) = ResolverStatus.failed
      /\ sd_failure_description (_solver_to_dict solver)
         = solver_failure_description solver)
  /\ populated (sd_failure_description (_solver_to_dict solver)).
Proof.
  intros Hcontract [args ->] Hns.
  destruct (Hcontract args) as [Hab Hfl].
  unfold _solver_to_dict in *.
  destruct (solver_status (run_solver env args)); simpl in *.
  - split; [left; auto | apply Hab; reflexivity].
  - split; [right; auto | apply Hfl; reflexivity].
  - contradiction.
Qed.

(** C8: when [solve()] completes with a status other than [solved], the
    status is [failed] or [aborted], there are no resolved packages, and
    the failure description is the one the solver gave, which is there
    and not empty. *)
Theorem solve_not_solved fuel w w' :
  cache_solved_only (memcache w) ->
  solver_describes_failure env ->
  solve env fuel w = (Ok tt, w') ->
  status_ (self_ w') <> ResolverStatus.solved ->
  resolved_packages (self_ w') = None
  /\ (status_ (self_ w') = ResolverStatus.failed
      \/ status_ (self_ w') = ResolverStatus.aborted)
  /\ populated (failure_description (self_ w')).
Proof.
  intros Hcache Hcontract Hrun Hns.
  unfold solve in Hrun. unfold bind at 1 in Hrun.
  destruct (_get_cached_solve env w) as [[[cached |] | e |] w1] eqn:Hget;
    try discriminate.
  - (* a hit would have status solved *)
    exfalso.
    apply get_cached_solve_inv in Hget as (_ & _ & _ & Hfrom).
    destruct (Hfrom cached eq_refl) as (key & data & Hl & ->).
    unfold bind in Hrun.
    destruct (set_from_cache_inv true w1) as (s1 & Hfc & _).
    rewrite Hfc in Hrun.
    apply set_result_inv in Hrun as (_ & _ & Hst & _).
    apply Hns. rewrite Hst. eapply Hcache. eassumption.
  - (* a live solve env *)
    unfold bind in Hrun.
    destruct (set_from_cache_inv false w1) as (s1 & Hfc & _).
    rewrite Hfc in Hrun.
    destruct (_solve env fuel _) as [[solver | e |] w2] eqn:Hsolve; try discriminate.
    apply solve_inner_inv in Hsolve as (_ & _ & Hargs).
    specialize (Hargs solver eq_refl).
    destruct (_set_result env (_solver_to_dict solver) w2) as [[[] | e |] w3] eqn:Hres;
      try discriminate.
    apply set_result_inv in Hres as (_ & _ & Hst & Hfd & _ & Hnone).
    apply set_cached_solve_inv in Hrun as [Hself _].
    unfold resolved_packages. rewrite Hself in *. rewrite Hst in Hns.
    destruct (solver_to_dict_not_solved solver Hcontract Hargs Hns)
      as [Hcase Hpop].
    split; [apply Hnone; assumption |]. split.
    + rewrite Hst. destruct Hcase as [[-> _] | [-> _]]; auto.
    + rewrite Hfd. assumption.
Qed.

(** [solve()] keeps the invariant that only solved results are cached,
    however it ends. *)
Lemma solve_preserves_cache_solved_only fuel w r w' :
  cache_solved_only (memcache w) ->
  solve env fuel w = (r, w') ->
  cache_solved_only (memcache w').
Proof.
  intros Hcache Hrun.
  unfold solve in Hrun. unfold bind at 1 in Hrun.
  destruct (_get_cached_solve env w) as [r1 w1] eqn:Hget.
  apply get_cached_solve_inv in Hget as (_ & _ & Hsub & _).
  assert (Hc1 : cache_solved_only (memcache w1)).
  { intros key data Hl. eapply Hcache, Hsub, Hl. }
  destruct r1 as [[cached |] | e |].
  - unfold bind in Hrun.
    destruct (set_from_cache_inv true w1) as (s1 & Hfc & _).
    rewrite Hfc in Hrun.
    apply set_result_inv in Hrun as (Hm & _). simpl in Hm. rewrite Hm. assumption.
  - unfold bind in Hrun.
    destruct (set_from_cache_inv false w1) as (s1 & Hfc & _).
    rewrite Hfc in Hrun.
    destruct (_solve env fuel _) as [r2 w2] eqn:Hsolve.
    apply solve_inner_inv in Hsolve as (_ & Hm2 & _). simpl in Hm2.
    destruct r2 as [solver | e |];
      try (inversion Hrun; subst; rewrite Hm2; assumption).
    destruct (_set_result env (_solver_to_dict solver) w2) as [r3 w3] eqn:Hres.
    apply set_result_inv in Hres as (Hm3 & _ & Hst & _).
    destruct r3 as [[] | e |];
      try (inversion Hrun; subst; rewrite Hm3, Hm2; assumption).
    apply set_cached_solve_inv in Hrun as [_ [Hm | [Hsolved (key & rt & st & Hm)]]];
      rewrite Hm.
    + rewrite Hm3, Hm2. assumption.
    + intros key' data Hl.
      apply lookup_insert_Some in Hl as [[_ <-] | [_ Hl]].
      * simpl. congruence.
      * rewrite Hm3, Hm2 in Hl. eapply Hc1, Hl.
  - inversion Hrun; subst. assumption.
  - inversion Hrun; subst. assumption.
Qed.

(** ** More on the memcache key *)

Lemma memcache_key_length self timestamped :
  length (_memcache_key env self timestamped) =
  if timestamped && negb (timestamp self =? 0) then 7%nat else 6%nat.
Proof.
  unfold _memcache_key.
  destruct (timestamped && negb (timestamp self =? 0)); reflexivity.
Qed.

Lemma same_inputs_key self self' timestamped :
  same_inputs self self' ->
  _memcache_key env self timestamped = _memcache_key env self' timestamped.
Proof.
  intros (Hr & Hp & Ht & Hb & _ & Hm & Hs). unfold _memcache_key.
  rewrite Hr, Hp, Ht, Hb, Hm, Hs. reflexivity.
Qed.

Lemma same_inputs_caching self self' :
  same_inputs self self' -> caching_enabled env self = caching_enabled env self'.
Proof.
  intros (_ & _ & _ & _ & Hc & _). unfold caching_enabled. rewrite Hc. reflexivity.
Qed.

(** X1: the two tiers of the cache never collide, and pinned entries of
    different timestamps are kept apart: a key with a (nonzero) timestamp
    is no resolver's non-timestamped key, and two such keys that are equal
    carry the same timestamp. *)
Theorem memcache_key_tiers_disjoint self self' :
  timestamp self <> 0 ->
  (forall timestamped,
      timestamped = false \/ timestamp self' = 0 ->
      _memcache_key env self true <> _memcache_key env self' timestamped)
  /\ (timestamp self' <> 0 ->
      _memcache_key env self true = _memcache_key env self' true ->
      timestamp self = timestamp self').
Proof.
  intros HT. split.
  - intros timestamped Hplain Heq. apply (f_equal length) in Heq.
    rewrite !memcache_key_length in Heq.
    destruct (Z.eqb_spec (timestamp self) 0); [contradiction |]. simpl in Heq.
    destruct Hplain as [Hf | Hz].
    + subst timestamped. discriminate.
    + rewrite Hz, andb_false_r in Heq. discriminate.
  - intros HT' Heq. unfold _memcache_key in Heq. simpl in Heq.
    destruct (Z.eqb_spec (timestamp self) 0); [contradiction |].
    destruct (Z.eqb_spec (timestamp self') 0); [contradiction |].
    simpl in Heq. inversion Heq. reflexivity.
Qed.

(** Resolvers that differ in the build flag, in [start_depth] or in
    [max_depth] never share a cache entry: equal keys carry equal
    settings. *)
Lemma memcache_key_settings self self' timestamped timestamped' :
  _memcache_key env self timestamped = _memcache_key env self' timestamped' ->
  building self = building self'
  /\ start_depth self = start_depth self'
  /\ max_depth self = max_depth self'.
Proof.
  unfold _memcache_key.
  destruct (timestamped && negb (timestamp self =? 0)),
           (timestamped' && negb (timestamp self' =? 0));
    simpl; intros Heq; inversion Heq; auto.
Qed.

(** ** The lookup of a resolver with a timestamp *)

(** The lookup of a resolver with a timestamp, case by case. *)
Lemma lookup_timestamp_eq w :
  timestamp (self_ w) <> 0 ->
  caching_enabled env (self_ w) = true ->
  _get_cached_solve env w =
  let key := _memcache_key env (self_ w) false in
  match memcache w !! key with
  | None => timestamped_lookup env w
  | Some data =>
      match sd_variant_handles (solver_dict data) with
      | None => (Raise TypeError, w)
      | Some variant_handles =>
          if existsb (variant_modified env data) variant_handles
             || _releases_since_solve env (self_ w) key data
          then timestamped_lookup env
                 (mkWorld (self_ w) (delete key (memcache w)) (solver_calls w))
          else if negb (_timestamp_is_earlier (self_ w) key data)
          then (Raise TypeError, w)
          else timestamped_lookup env w
      end
  end.
Proof.
  intros HT Hc.
  unfold _get_cached_solve, try_non_timestamped, timestamped_lookup, bind,
    get_self, _retrieve, memcache_get, _packages_changed, _delete_cache_entry,
    memcache_delete, _hit, _miss, ret, raise.
  simpl. rewrite Hc.
  destruct (Z.eqb_spec (timestamp (self_ w)) 0) as [| _]; [contradiction |].
  simpl.
  destruct (memcache w !! _memcache_key env (self_ w) false) as [data |]; simpl.
  - destruct (sd_variant_handles (solver_dict data)) as [hs |]; [| reflexivity].
    destruct (existsb (variant_modified env data) hs); simpl.
    + destruct (delete _ (memcache w) !! _) as [d1 |]; [| reflexivity].
      destruct (sd_variant_handles (solver_dict d1)); [| reflexivity].
      destruct (existsb _ _); reflexivity.
    + destruct (_releases_since_solve env (self_ w) _ data); simpl.
      * destruct (delete _ (memcache w) !! _) as [d1 |]; [| reflexivity].
        destruct (sd_variant_handles (solver_dict d1)); [| reflexivity].
        destruct (existsb _ _); reflexivity.
      * destruct (negb (_timestamp_is_earlier (self_ w) _ data)); [reflexivity |].
        destruct (memcache w !! _) as [d1 |]; [| reflexivity].
        destruct (sd_variant_handles (solver_dict d1)); [| reflexivity].
        destruct (existsb _ _); reflexivity.
  - destruct (memcache w !! _) as [d1 |]; [| reflexivity].
    destruct (sd_variant_handles (solver_dict d1)); [| reflexivity].
    destruct (existsb _ _); reflexivity.
Qed.

Lemma timestamped_lookup_absent w :
  memcache w !! _memcache_key env (self_ w) true = None ->
  timestamped_lookup env w = (Ok None, w).
Proof. intros Hl. unfold timestamped_lookup. rewrite Hl. reflexivity. Qed.

Lemma timestamped_lookup_unchanged w w0 data :
  memcache w !! _memcache_key env (self_ w) true = Some data ->
  _packages_changed env (_memcache_key env (self_ w) true) data w0 = (Ok false, w0) ->
  timestamped_lookup env w = (Ok (Some (solver_dict data)), w).
Proof.
  intros Hl Hpc. apply packages_changed_spec in Hpc as (hs & Hhs & Hpc).
  unfold timestamped_lookup. rewrite Hl, Hhs, <- Hpc. reflexivity.
Qed.

Lemma timestamped_lookup_changed w w0 data :
  memcache w !! _memcache_key env (self_ w) true = Some data ->
  _packages_changed env (_memcache_key env (self_ w) true) data w0 = (Ok true, w0) ->
  timestamped_lookup env w =
  (Ok None, mkWorld (self_ w) (delete (_memcache_key env (self_ w) true) (memcache w))
              (solver_calls w)).
Proof.
  intros Hl Hpc. apply packages_changed_spec in Hpc as (hs & Hhs & Hpc).
  unfold timestamped_lookup. rewrite Hl, Hhs, <- Hpc. reflexivity.
Qed.

(** The timestamped lookup leaves every other key alone. *)
Lemma timestamped_lookup_other w key :
  key <> _memcache_key env (self_ w) true ->
  memcache (snd (timestamped_lookup env w)) !! key = memcache w !! key.
Proof.
  intros Hne. unfold timestamped_lookup.
  destruct (memcache w !! _memcache_key env (self_ w) true) as [d |];
    [| reflexivity].
  destruct (sd_variant_handles (solver_dict d)); [| reflexivity].
  destruct (existsb _ _); simpl; [| reflexivity].
  apply lookup_delete_ne. congruence.
Qed.

(** X2: a resolver with a timestamp that finds no non-timestamped entry is
    served from the entry pinned to its timestamp exactly when that entry
    exists and no variant of it was modified; release times are not
    consulted.  A pinned entry with a modified variant is deleted. *)
Theorem get_cached_solve_timestamped w :
  timestamp (self_ w) <> 0 ->
  caching_enabled env (self_ w) = true ->
  memcache w !! _memcache_key env (self_ w) false = None ->
  let key := _memcache_key env (self_ w) true in
  (forall cached w',
      _get_cached_solve env w = (Ok (Some cached), w') <->
      w' = w /\ exists data,
        memcache w !! key = Some data
        /\ cached = solver_dict data
        /\ _packages_changed env key data w = (Ok false, w))
  /\ (forall data,
        memcache w !! key = Some data ->
        _packages_changed env key data w = (Ok true, w) ->
        _get_cached_solve env w =
          (Ok None, mkWorld (self_ w) (delete key (memcache w)) (solver_calls w))).
Proof.
  intros HT Hc Hnone key.
  rewrite (lookup_timestamp_eq w HT Hc). cbv zeta. rewrite Hnone. split.
  - intros cached w'. split.
    + unfold timestamped_lookup. fold key.
      destruct (memcache w !! key) as [data |] eqn:Hl; [| discriminate].
      destruct (sd_variant_handles (solver_dict data)) as [hs |] eqn:Hhs;
        [| discriminate].
      destruct (existsb (variant_modified env data) hs) eqn:Hpc; [discriminate |].
      intros Heq. inversion Heq; subst. split; [reflexivity |].
      exists data. repeat split.
      apply packages_changed_spec. exists hs. auto.
    + intros [-> (data & Hl & -> & Hpc)].
      eapply timestamped_lookup_unchanged; eassumption.
  - intros data Hl Hpc. eapply timestamped_lookup_changed; eassumption.
Qed.

(** X3: a resolver whose timestamp is earlier than a release recorded in a
    current non-timestamped entry does not use that entry and does not
    delete it either: it is served from the entry pinned to its timestamp
    if there is one with no modified variant, and misses if there is
    none. *)
Theorem get_cached_solve_earlier_timestamp w data :
  timestamp (self_ w) <> 0 ->
  caching_enabled env (self_ w) = true ->
  let key := _memcache_key env (self_ w) false in
  let pinned := _memcache_key env (self_ w) true in
  memcache w !! key = Some data ->
  _packages_changed env key data w = (Ok false, w) ->
  _releases_since_solve env (self_ w) key data = false ->
  _timestamp_is_earlier (self_ w) key data = true ->
  memcache (snd (_get_cached_solve env w)) !! key = Some data
  /\ (memcache w !! pinned = None -> _get_cached_solve env w = (Ok None, w))
  /\ (forall data1,
        memcache w !! pinned = Some data1 ->
        _packages_changed env pinned data1 w = (Ok false, w) ->
        _get_cached_solve env w = (Ok (Some (solver_dict data1)), w)).
Proof.
  intros HT Hc key pinned Hl Hpc Hrs Hte.
  rewrite (lookup_timestamp_eq w HT Hc). cbv zeta. fold key. rewrite Hl.
  apply packages_changed_spec in Hpc as (hs & Hhs & Hpc).
  rewrite Hhs, <- Hpc, Hrs, Hte. cbn [orb negb]. split; [| split].
  - rewrite timestamped_lookup_other; [assumption |].
    intros Heq. symmetry in Heq. revert Heq.
    apply memcache_key_timestamped_ne. assumption.
  - apply timestamped_lookup_absent.
  - intros data1 Hl1 Hpc1. eapply timestamped_lookup_unchanged; eassumption.
Qed.

(** X4: a resolver with a timestamp that finds a stale non-timestamped
    entry (a modified variant, or a release since the entry was written)
    deletes it and goes on to the entry pinned to its timestamp. *)
Theorem get_cached_solve_stale_timestamp w data :
  timestamp (self_ w) <> 0 ->
  caching_enabled env (self_ w) = true ->
  let key := _memcache_key env (self_ w) false in
  let pinned := _memcache_key env (self_ w) true in
  let w1 := mkWorld (self_ w) (delete key (memcache w)) (solver_calls w) in
  memcache w !! key = Some data ->
  _packages_changed env key data w = (Ok true, w)
  \/ (_packages_changed env key data w = (Ok false, w)
      /\ _releases_since_solve env (self_ w) key data = true) ->
  memcache (snd (_get_cached_solve env w)) !! key = None
  /\ (memcache w !! pinned = None -> _get_cached_solve env w = (Ok None, w1))
  /\ (forall data1,
        memcache w !! pinned = Some data1 ->
        _packages_changed env pinned data1 w = (Ok false, w) ->
        _get_cached_solve env w = (Ok (Some (solver_dict data1)), w1)).
Proof.
  intros HT Hc key pinned w1 Hl Hstale.
  assert (Hne : key <> pinned).
  { intros Heq. symmetry in Heq. revert Heq.
    apply memcache_key_timestamped_ne. assumption. }
  assert (Hrun : _get_cached_solve env w = timestamped_lookup env w1).
  { rewrite (lookup_timestamp_eq w HT Hc). cbv zeta. fold key. rewrite Hl.
    destruct Hstale as [Hpc | [Hpc Hrs]];
      apply packages_changed_spec in Hpc as (hs & Hhs & Hpc);
      rewrite Hhs, <- Hpc; [reflexivity |].
    rewrite Hrs. reflexivity. }
  assert (Hpin : forall o, memcache w !! pinned = o -> memcache w1 !! pinned = o).
  { intros o <-. simpl. apply lookup_delete_ne. assumption. }
  rewrite Hrun. split; [| split].
  - rewrite timestamped_lookup_other by exact Hne. simpl. apply lookup_delete_eq.
  - intros Hnone. apply timestamped_lookup_absent. apply Hpin. assumption.
  - intros data1 Hl1 Hpc1.
    apply (timestamped_lookup_unchanged w1 w data1); [| assumption].
    apply Hpin. assumption.
Qed.

(** ** [solve()] as a whole *)

Lemma same_inputs_refl self : same_inputs self self.
Proof. repeat split. Qed.

Lemma same_inputs_trans self1 self2 self3 :
  same_inputs self1 self2 -> same_inputs self2 self3 -> same_inputs self1 self3.
Proof.
  intros (H1 & H2 & H3 & H4 & H5 & H6 & H7) (G1 & G2 & G3 & G4 & G5 & G6 & G7).
  repeat split; congruence.
Qed.

Lemma set_from_cache_spec b w :
  exists self',
    set_from_cache b w = (Ok tt, mkWorld self' (memcache w) (solver_calls w))
    /\ same_inputs (self_ w) self'
    /\ from_cache self' = b.
Proof.
  unfold set_from_cache, bind, get_self, put_self. simpl.
  eexists. split; [reflexivity |]. split; [| reflexivity]. repeat split.
Qed.

Lemma with_result_inputs self cached resolved :
  same_inputs self (with_result self cached resolved).
Proof. repeat split. Qed.

(** [_set_result] returns unless the dict is solved and has no handles. *)
Lemma set_result_ok cached w :
  (sd_status cached = ResolverStatus.solved -> sd_variant_handles cached <> None) ->
  _set_result env cached w =
  (Ok tt,
   mkWorld (with_result (self_ w) cached
              (if ResolverStatus.eqb (sd_status cached) ResolverStatus.solved
               then Some (map (get_variant env) (default [] (sd_variant_handles cached)))
               else None))
           (memcache w) (solver_calls w)).
Proof.
  intros Hwf. unfold _set_result, bind, get_self, put_self. simpl.
  destruct (ResolverStatus.eqb (sd_status cached) ResolverStatus.solved) eqn:Hst;
    [| reflexivity].
  apply ResolverStatus_eqb_eq in Hst.
  destruct (sd_variant_handles cached); [reflexivity |].
  exfalso. apply (Hwf Hst). reflexivity.
Qed.

Lemma solver_to_dict_handles solver :
  sd_status (_solver_to_dict solver) = ResolverStatus.solved ->
  sd_variant_handles (_solver_to_dict solver) <> None.
Proof.
  unfold _solver_to_dict. destruct (solver_status solver); simpl; discriminate.
Qed.

Lemma logged_nil w : logged w [] = w.
Proof. unfold logged. rewrite app_nil_r. destruct w; reflexivity. Qed.

(** The log of an iterative solve only grows; a solver that is returned is
    the last one logged; the loop raises nothing. *)
Lemma iterative_solve_log fuel self :
  forall depth w r w',
    iterative_solve env fuel self depth w = (r, w') ->
    exists calls,
      w' = logged w calls
      /\ (forall solver, r = Ok solver ->
            exists calls0 args,
              calls = calls0 ++ [args] /\ solver = run_solver env args)
      /\ (forall e, r <> Raise e).
Proof.
  induction fuel as [| fuel IH]; intros depth w r w' H.
  - unfold iterative_solve, out_of_fuel in H. inversion H as [[Hr Hw]].
    exists []. rewrite logged_nil. repeat split; discriminate.
  - rewrite iterative_solve_step in H. cbv zeta in H.
    destruct (stops (solver_at env self depth) || _).
    + inversion H; subst. eexists. split; [reflexivity |]. split; [| discriminate].
      intros solver Hs. inversion Hs; subst. exists [], (kwargs env self (Some depth)).
      split; reflexivity.
    + apply IH in H as (calls & -> & Hlast & Hno).
      exists (kwargs env self (Some depth) :: calls).
      rewrite logged_logged. split; [reflexivity |]. split; [| assumption].
      intros solver Hs. destruct (Hlast solver Hs) as (calls0 & args & -> & ->).
      exists (kwargs env self (Some depth) :: calls0), args. split; reflexivity.
Qed.

Lemma solve_inner_log fuel w r w' :
  _solve env fuel w = (r, w') ->
  exists calls,
    w' = logged w calls
    /\ (forall solver, r = Ok solver ->
          exists calls0 args,
            calls = calls0 ++ [args] /\ solver = run_solver env args)
    /\ (forall e, r <> Raise e).
Proof.
  unfold _solve, bind, get_self, Solver_solve. intros H.
  destruct (negb (start_depth (self_ w) =? 0)).
  - apply iterative_solve_log in H. exact H.
  - destruct (negb (max_depth (self_ w) =? 0)); inversion H; subst;
      (eexists; split; [reflexivity |]; split; [| discriminate]);
      intros solver Hs; inversion Hs; subst;
      eexists [], _; split; reflexivity.
Qed.

(** After [_set_result] the store cannot trip over missing packages. *)
Lemma set_cached_solve_after_result cached w r w' :
  (status_ (self_ w) = ResolverStatus.solved -> resolved_packages_ (self_ w) <> None) ->
  _set_cached_solve env cached w = (r, w') ->
  r = Ok tt.
Proof.
  intros Hres. unfold _set_cached_solve, bind, get_self, memcache_set, ret, raise.
  simpl. intros H.
  destruct (negb (caching_enabled env (self_ w))); [inversion H; reflexivity |].
  destruct (ResolverStatus.eqb (status_ (self_ w)) ResolverStatus.solved) eqn:Hst;
    simpl in H; [| inversion H; reflexivity].
  apply ResolverStatus_eqb_eq in Hst.
  destruct (resolved_packages_ (self_ w)); [| exfalso; apply (Hres Hst); reflexivity].
  destruct (collect_release_info _ _ _ _ _ _) as [[[rs rt] st] |];
    inversion H; reflexivity.
Qed.

(** What [solve()] does after a miss, step by step. *)
Lemma solve_after_miss fuel w w1 r w' :
  _get_cached_solve env w = (Ok None, w1) ->
  solve env fuel w = (r, w') ->
  exists self1 calls,
    same_inputs (self_ w1) self1 /\ from_cache self1 = false
    /\ let w2 := logged (mkWorld self1 (memcache w1) (solver_calls w1)) calls in
       (r = OutOfFuel /\ w' = w2
        \/ exists calls0 args,
             calls = calls0 ++ [args]
             /\ let cached := _solver_to_dict (run_solver env args) in
                let w3 := mkWorld
                            (with_result self1 cached
                               (if ResolverStatus.eqb (sd_status cached)
                                     ResolverStatus.solved
                                then Some (map (get_variant env)
                                             (default [] (sd_variant_handles cached)))
                                else None))
                            (memcache w1) (solver_calls w1 ++ calls) in
                r = Ok tt /\ _set_cached_solve env cached w3 = (Ok tt, w')).
Proof.
  intros Hget Hrun. unfold solve in Hrun. unfold bind at 1 in Hrun.
  rewrite Hget in Hrun. unfold bind in Hrun.
  destruct (set_from_cache_spec false w1) as (self1 & Hfc & Hin & Hfalse).
  rewrite Hfc in Hrun.
  destruct (_solve env fuel _) as [r2 w2] eqn:Hsolve.
  apply solve_inner_log in Hsolve as (calls & -> & Hlast & Hno).
  exists self1, calls. split; [assumption |]. split; [assumption |]. cbv zeta.
  destruct r2 as [solver | e |].
  - right. destruct (Hlast solver eq_refl) as (calls0 & args & -> & ->).
    exists calls0, args. split; [reflexivity |].
    rewrite set_result_ok in Hrun by apply solver_to_dict_handles.
    simpl in Hrun.
    destruct (_set_cached_solve env _ _) as [r4 w4] eqn:Hstore.
    assert (r4 = Ok tt) as ->.
    { eapply set_cached_solve_after_result; [| exact Hstore]. simpl.
      intros Hst. apply ResolverStatus_eqb_eq in Hst. rewrite Hst. discriminate. }
    inversion Hrun; subst. split; reflexivity.
  - exfalso. exact (Hno e eq_refl).
  - left. inversion Hrun; subst. split; reflexivity.
Qed.

(** X5: with caching switched off (in the configuration, for this resolver
    or in the memcache client) [solve()] never touches the memcache and
    raises nothing; when it returns, the result comes from a solver run
    and is not marked as cached. *)
Theorem solve_caching_disabled fuel w r w' :
  caching_enabled env (self_ w) = false ->
  solve env fuel w = (r, w') ->
  memcache w' = memcache w
  /\ (forall e, r <> Raise e)
  /\ (r = Ok tt ->
      from_cache (self_ w') = false
      /\ (length (solver_calls w) < length (solver_calls w'))%nat).
Proof.
  intros Hc Hrun.
  assert (Hget : _get_cached_solve env w = (Ok None, w)).
  { unfold _get_cached_solve, bind, get_self, ret. simpl. rewrite Hc. reflexivity. }
  destruct (solve_after_miss fuel w w r w' Hget Hrun)
    as (self1 & calls & Hin & Hfalse & Hcases). cbv zeta in Hcases.
  destruct Hcases as [[-> ->] | (calls0 & args & -> & -> & Hstore)].
  - simpl. split; [reflexivity |]. split; discriminate.
  - assert (Hoff : caching_enabled env
                     (with_result self1 (_solver_to_dict (run_solver env args))
                        (if ResolverStatus.eqb
                              (sd_status (_solver_to_dict (run_solver env args)))
                              ResolverStatus.solved
                         then Some (map (get_variant env)
                                      (default [] (sd_variant_handles
                                         (_solver_to_dict (run_solver env args)))))
                         else None)) = false).
    { rewrite <- Hc. symmetry. apply same_inputs_caching.
      eapply same_inputs_trans; [exact Hin | apply with_result_inputs]. }
    unfold _set_cached_solve, bind, get_self, ret in Hstore. simpl in Hstore.
    rewrite Hoff in Hstore. simpl in Hstore. inversion Hstore; subst. simpl.
    split; [reflexivity |]. split; [discriminate |]. intros _.
    split; [assumption |]. rewrite !length_app. simpl. lia.
Qed.

(** What [solve()] does after a hit. *)
Lemma solve_after_hit fuel w w1 cached :
  _get_cached_solve env w = (Ok (Some cached), w1) ->
  exists self1,
    same_inputs (self_ w1) self1 /\ from_cache self1 = true
    /\ solve env fuel w =
       _set_result env cached (mkWorld self1 (memcache w1) (solver_calls w1)).
Proof.
  intros Hget. unfold solve. unfold bind at 1. rewrite Hget. unfold bind.
  destruct (set_from_cache_spec true w1) as (self1 & Hfc & Hin & Htrue).
  rewrite Hfc. exists self1. auto.
Qed.

Lemma set_result_from_cache cached w r w' :
  _set_result env cached w = (r, w') ->
  from_cache (self_ w') = from_cache (self_ w).
Proof.
  unfold _set_result, bind, get_self, put_self, raise. simpl.
  destruct (ResolverStatus.eqb (sd_status cached) ResolverStatus.solved);
    [destruct (sd_variant_handles cached) |];
    intros H; inversion H; subst; reflexivity.
Qed.

(** X6: a resolver without a timestamp that finds a current entry takes
    its result from the entry: no solver runs, whatever the fuel, the
    memcache stays as it is, the result is marked as cached, and the
    resolved packages are the entry's handles turned into variants, in
    the entry's order. *)
Theorem solve_cache_hit fuel w data :
  timestamp (self_ w) = 0 ->
  caching_enabled env (self_ w) = true ->
  let key := _memcache_key env (self_ w) false in
  memcache w !! key = Some data ->
  _packages_changed env key data w = (Ok false, w) ->
  _releases_since_solve env (self_ w) key data = false ->
  exists w' variant_handles,
    solve env fuel w = (Ok tt, w')
    /\ sd_variant_handles (solver_dict data) = Some variant_handles
    /\ memcache w' = memcache w
    /\ solver_calls w' = solver_calls w
    /\ same_inputs (self_ w) (self_ w')
    /\ from_cache (self_ w') = true
    /\ status_ (self_ w') = sd_status (solver_dict data)
    /\ failure_description (self_ w') = sd_failure_description (solver_dict data)
    /\ resolved_packages (self_ w') =
       if ResolverStatus.eqb (sd_status (solver_dict data)) ResolverStatus.solved
       then Some (map (get_variant env) variant_handles)
       else None.
Proof.
  intros HT Hc key Hl Hpc Hrs.
  assert (Hget : _get_cached_solve env w = (Ok (Some (solver_dict data)), w)).
  { apply packages_changed_spec in Hpc as (hs & Hhs & Hpc).
    rewrite (lookup_no_timestamp_eq w HT Hc). cbv zeta. fold key.
    rewrite Hl, Hhs, <- Hpc, Hrs. reflexivity. }
  apply packages_changed_spec in Hpc as (hs & Hhs & _).
  destruct (solve_after_hit fuel w w (solver_dict data) Hget)
    as (self1 & Hin & Htrue & Hrun).
  rewrite set_result_ok in Hrun by (intros _; rewrite Hhs; discriminate).
  eexists _, hs. split; [exact Hrun |]. simpl. rewrite Hhs. simpl.
  repeat split; try assumption; try reflexivity; apply Hin.
Qed.

(** The store sets at most one of the resolver's own two keys, and
    nothing else. *)
Lemma set_cached_solve_shape cached w r w' :
  _set_cached_solve env cached w = (r, w') ->
  self_ w' = self_ w
  /\ solver_calls w' = solver_calls w
  /\ (memcache w' = memcache w
      \/ (status_ (self_ w) = ResolverStatus.solved
          /\ exists timestamped rt st,
               memcache w' =
               <[_memcache_key env (self_ w) timestamped := mkEntry cached rt st]>
                 (memcache w))).
Proof.
  unfold _set_cached_solve, bind, get_self, memcache_set, ret, raise. simpl.
  intros H.
  destruct (negb (caching_enabled env (self_ w)));
    [inversion H; subst; auto |].
  destruct (ResolverStatus.eqb (status_ (self_ w)) ResolverStatus.solved) eqn:Hst;
    simpl in H; [| inversion H; subst; auto].
  apply ResolverStatus_eqb_eq in Hst.
  destruct (resolved_packages_ (self_ w)); [| inversion H; subst; auto].
  destruct (collect_release_info _ _ _ _ _ _) as [[[rs rt] st] |];
    inversion H; subst; simpl; [| auto].
  split; [reflexivity |]. split; [reflexivity |]. right. split; [assumption |]. eauto.
Qed.

(** X7: when [solve()] returns with a result that is not marked as cached,
    the result is that of the last solver that ran: the status is the
    solver's, translated; the failure description is the abort reason of
    an interrupted solver and the failure description of a failed one; and
    the resolved packages of a solved one are its packages, in its order. *)
Theorem solve_live_result fuel w w' :
  solve env fuel w = (Ok tt, w') ->
  from_cache (self_ w') = false ->
  exists args,
    last (solver_calls w') = Some args
    /\ let solver := run_solver env args in
       status_ (self_ w') = resolver_status_of (solver_status solver)
       /\ graph_ (self_ w') = Some (get_graph solver)
       /\ failure_description (self_ w') =
          match solver_status solver with
          | SolverStatus.unsolved => abort_reason solver
          | SolverStatus.failed => solver_failure_description solver
          | SolverStatus.solved => None
          end
       /\ resolved_packages (self_ w') =
          match solver_status solver with
          | SolverStatus.solved =>
              Some (map (fun v => get_variant env (userdata v))
                        (solver_resolved_packages solver))
          | _ => None
          end.
Proof.
  intros Hrun Hlive.
  destruct (_get_cached_solve env w) as [[[cached |] | e |] w1] eqn:Hget.
  - exfalso.
    destruct (solve_after_hit fuel w w1 cached Hget) as (self1 & _ & Htrue & Heq).
    rewrite Heq in Hrun. apply set_result_from_cache in Hrun. simpl in Hrun.
    congruence.
  - destruct (solve_after_miss fuel w w1 (Ok tt) w' Hget Hrun)
      as (self1 & calls & _ & _ & Hcases). cbv zeta in Hcases.
    destruct Hcases as [[Hr _] | (calls0 & args & -> & _ & Hstore)];
      [discriminate |].
    apply set_cached_solve_shape in Hstore as (Hself & Hcalls & _).
    simpl in Hcalls. exists args. split.
    + rewrite Hcalls, !app_assoc. apply last_snoc.
    + cbv zeta. unfold resolved_packages. rewrite Hself. simpl.
      unfold _solver_to_dict, resolver_status_of.
      destruct (solver_status (run_solver env args)); simpl; repeat split.
      rewrite map_map. reflexivity.
  - unfold solve in Hrun. unfold bind at 1 in Hrun. rewrite Hget in Hrun.
    discriminate.
  - unfold solve in Hrun. unfold bind at 1 in Hrun. rewrite Hget in Hrun.
    discriminate.
Qed.

End Properties.

(** ** Storing, then looking up *)

Section RoundTrips.

Context {Requirement VariantHandle Graph Resource : Type}.
Variable env : @Env Requirement VariantHandle Graph Resource.

Implicit Types (w : @World Requirement VariantHandle Graph Resource).
Implicit Types (self : @ResolverObj Requirement Graph Resource).
Implicit Types (data : @Entry VariantHandle Graph).
Implicit Types (solver : @Solver VariantHandle Graph).
Implicit Types (cached solver_dict : @SolverDict VariantHandle Graph).
Implicit Types (variants : list (@Variant Resource)).

Lemma elem_of_map_name variants (v : @Variant Resource) :
  v ∈ variants -> name v ∈ map name variants.
Proof.
  intros Hin. apply list_elem_of_In, in_map, list_elem_of_In. assumption.
Qed.

Lemma last_filter_name variants (v : @Variant Resource) :
  NoDup (map name variants) ->
  v ∈ variants ->
  last (filter (fun x => name x = name v) variants) = Some v.
Proof.
  induction variants as [| x rest IH]; intros Hnd Hin.
  - inversion Hin.
  - simpl in Hnd. apply NoDup_cons in Hnd as [Hx Hnd].
    rewrite filter_cons.
    apply elem_of_cons in Hin as [-> | Hin].
    + rewrite decide_True by reflexivity.
      destruct (filter (fun x0 => name x0 = name x) rest) as [| y ys] eqn:Hf;
        [reflexivity |].
      exfalso. apply Hx.
      assert (Hy : y ∈ filter (fun x0 => name x0 = name x) rest)
        by (rewrite Hf; left).
      apply list_elem_of_filter in Hy as [Hname Hy].
      rewrite <- Hname. apply elem_of_map_name. assumption.
    + rewrite decide_False.
      * apply IH; assumption.
      * intros Hname. apply Hx. rewrite Hname.
        apply elem_of_map_name. assumption.
Qed.

(** The store, when it writes. *)
Lemma set_cached_solve_written cached w variants :
  caching_enabled env (self_ w) = true ->
  status_ (self_ w) = ResolverStatus.solved ->
  resolved_packages_ (self_ w) = Some variants ->
  (forall v, v ∈ variants -> release_time_of env (self_ w) v <> 0) ->
  _set_cached_solve env cached w =
  (Ok tt,
   mkWorld (self_ w)
     (<[_memcache_key env (self_ w)
          (negb (timestamp (self_ w) =? 0)
           && existsb (fun v => timestamp (self_ w) <? release_time_of env (self_ w) v)
                      variants)
        := stored_entry env (self_ w) cached variants]> (memcache w))
     (solver_calls w)).
Proof.
  intros Hc Hst Hres Hnz.
  unfold _set_cached_solve, bind, get_self, memcache_set, ret. simpl.
  rewrite Hc, Hst, Hres. simpl.
  rewrite collect_release_info_known by exact Hnz. simpl.
  destruct (negb (timestamp (self_ w) =? 0)); reflexivity.
Qed.

(** Right after it was stored, nothing in an entry has changed. *)
Lemma stored_entry_unmodified self cached variant_handles :
  NoDup (map name (map (get_variant env) variant_handles)) ->
  existsb (variant_modified env
             (stored_entry env self cached (map (get_variant env) variant_handles)))
          variant_handles = false.
Proof.
  intros Hnd. apply not_true_is_false. intros Hex.
  apply existsb_elem_of in Hex as (h & Hin & Hmod).
  apply variant_modified_true in Hmod. apply Hmod. clear Hmod.
  unfold dict_get, stored_entry. simpl.
  rewrite variant_states_lookup.
  rewrite last_filter_name; [reflexivity | assumption |].
  apply list_elem_of_In, in_map, list_elem_of_In. assumption.
Qed.

Lemma stored_entry_no_releases self self' key cached variants :
  package_paths self' = package_paths self ->
  _releases_since_solve env self' key (stored_entry env self cached variants) = false.
Proof.
  intros Hp. apply not_true_is_false. intros Hex.
  apply releases_since_solve_true in Hex as (n & t & Hl & Hne).
  unfold stored_entry in Hl. simpl in Hl. rewrite release_times_lookup in Hl.
  destruct (decide (n ∈ map name variants)); [| rewrite lookup_empty in Hl; discriminate].
  inversion Hl; subst. apply Hne. rewrite Hp. reflexivity.
Qed.

(** X8: a solve stored by a resolver without a timestamp is found again:
    with caching on, status [solved], every release time known and no two
    resolved variants of the same name, the lookup that follows the store
    returns the stored [solver_dict] and leaves the memcache alone. *)
Theorem store_then_lookup_hits cached w variant_handles :
  caching_enabled env (self_ w) = true ->
  timestamp (self_ w) = 0 ->
  status_ (self_ w) = ResolverStatus.solved ->
  sd_variant_handles cached = Some variant_handles ->
  resolved_packages_ (self_ w) = Some (map (get_variant env) variant_handles) ->
  (forall v, v ∈ map (get_variant env) variant_handles ->
             get_last_release_time env (name v) (package_paths (self_ w)) <> 0) ->
  NoDup (map name (map (get_variant env) variant_handles)) ->
  exists w1,
    _set_cached_solve env cached w = (Ok tt, w1)
    /\ _get_cached_solve env w1 = (Ok (Some cached), w1).
Proof.
  intros Hc HT Hst Hhs Hres Hnz Hnd.
  rewrite (set_cached_solve_written cached w _ Hc Hst Hres Hnz).
  eexists. split; [reflexivity |].
  rewrite lookup_no_timestamp_eq by assumption. cbv zeta. simpl.
  rewrite HT. simpl. rewrite lookup_insert_eq. simpl. rewrite Hhs.
  rewrite stored_entry_unmodified by assumption.
  rewrite stored_entry_no_releases by reflexivity. reflexivity.
Qed.

(** X9: staleness after a release.  When a package of a stored solve is
    released again (the repository's last release time for one of the
    resolved names changes, nothing else does), the next lookup without a
    timestamp misses and deletes the entry. *)
Theorem store_then_release_misses cached w variant_handles times v :
  caching_enabled env (self_ w) = true ->
  timestamp (self_ w) = 0 ->
  status_ (self_ w) = ResolverStatus.solved ->
  sd_variant_handles cached = Some variant_handles ->
  resolved_packages_ (self_ w) = Some (map (get_variant env) variant_handles) ->
  (forall v, v ∈ map (get_variant env) variant_handles ->
             get_last_release_time env (name v) (package_paths (self_ w)) <> 0) ->
  NoDup (map name (map (get_variant env) variant_handles)) ->
  v ∈ map (get_variant env) variant_handles ->
  times (name v) (package_paths (self_ w))
    <> get_last_release_time env (name v) (package_paths (self_ w)) ->
  exists w1,
    _set_cached_solve env cached w = (Ok tt, w1)
    /\ memcache w1 !! _memcache_key env (self_ w) false
       = Some (stored_entry env (self_ w) cached (map (get_variant env) variant_handles))
    /\ _get_cached_solve (with_release_times env times) w1 =
       (Ok None,
        mkWorld (self_ w)
          (delete (_memcache_key env (self_ w) false) (memcache w1))
          (solver_calls w)).
Proof.
  intros Hc HT Hst Hhs Hres Hnz Hnd Hv Hnew.
  rewrite (set_cached_solve_written cached w _ Hc Hst Hres Hnz).
  eexists. split; [reflexivity |]. rewrite HT. simpl.
  split; [apply lookup_insert_eq |].
  rewrite lookup_no_timestamp_eq by assumption. cbv zeta. simpl.
  change (_memcache_key (with_release_times env times) (self_ w) false)
    with (_memcache_key env (self_ w) false).
  rewrite lookup_insert_eq. simpl. rewrite Hhs.
  change (variant_modified (with_release_times env times))
    with (variant_modified env).
  rewrite stored_entry_unmodified by assumption. simpl.
  assert (Hrs : _releases_since_solve (with_release_times env times) (self_ w)
                  (_memcache_key env (self_ w) false)
                  (stored_entry env (self_ w) cached
                     (map (get_variant env) variant_handles)) = true).
  { apply releases_since_solve_true.
    exists (name v), (get_last_release_time env (name v) (package_paths (self_ w))).
    split; [| exact Hnew].
    unfold stored_entry. simpl. rewrite release_times_lookup.
    rewrite decide_True; [reflexivity |].
    apply elem_of_map_name. assumption. }
  rewrite Hrs. reflexivity.
Qed.

(** X10: a solve pinned to a timestamp stays reproducible.  When the store
    goes to the timestamped key (some resolved package was released after
    [T]) and there is no non-timestamped entry, the lookup at the same
    timestamp returns the stored [solver_dict], now and after any further
    releases. *)
Theorem store_then_lookup_pinned cached w variant_handles times v :
  caching_enabled env (self_ w) = true ->
  timestamp (self_ w) <> 0 ->
  status_ (self_ w) = ResolverStatus.solved ->
  sd_variant_handles cached = Some variant_handles ->
  resolved_packages_ (self_ w) = Some (map (get_variant env) variant_handles) ->
  (forall v, v ∈ map (get_variant env) variant_handles ->
             get_last_release_time env (name v) (package_paths (self_ w)) <> 0) ->
  NoDup (map name (map (get_variant env) variant_handles)) ->
  v ∈ map (get_variant env) variant_handles ->
  timestamp (self_ w) < get_last_release_time env (name v) (package_paths (self_ w)) ->
  memcache w !! _memcache_key env (self_ w) false = None ->
  exists w1,
    _set_cached_solve env cached w = (Ok tt, w1)
    /\ _get_cached_solve env w1 = (Ok (Some cached), w1)
    /\ _get_cached_solve (with_release_times env times) w1 = (Ok (Some cached), w1).
Proof.
  intros Hc HT Hst Hhs Hres Hnz Hnd Hv Hnew Hnone.
  rewrite (set_cached_solve_written cached w _ Hc Hst Hres Hnz).
  assert (Hnewer : existsb (fun v0 => timestamp (self_ w)
                                      <? release_time_of env (self_ w) v0)
                     (map (get_variant env) variant_handles) = true).
  { apply existsb_elem_of. exists v. split; [assumption |].
    apply Z.ltb_lt. exact Hnew. }
  rewrite Hnewer.
  destruct (Z.eqb_spec (timestamp (self_ w)) 0) as [| _]; [contradiction |]. simpl.
  eexists. split; [reflexivity |].
  assert (Hne : _memcache_key env (self_ w) true <> _memcache_key env (self_ w) false)
    by (apply memcache_key_timestamped_ne; assumption).
  assert (Hrun : forall env',
             caching_enabled env' (self_ w) = true ->
             (forall b, _memcache_key env' (self_ w) b = _memcache_key env (self_ w) b) ->
             variant_modified env' = variant_modified env ->
             _get_cached_solve env'
               (mkWorld (self_ w)
                  (<[_memcache_key env (self_ w) true :=
                       stored_entry env (self_ w) cached
                         (map (get_variant env) variant_handles)]> (memcache w))
                  (solver_calls w))
             = (Ok (Some cached),
                mkWorld (self_ w)
                  (<[_memcache_key env (self_ w) true :=
                       stored_entry env (self_ w) cached
                         (map (get_variant env) variant_handles)]> (memcache w))
                  (solver_calls w))).
  { intros env' Hc' Hkey Hmod.
    rewrite lookup_timestamp_eq by assumption. cbv zeta. simpl.
    rewrite !Hkey. rewrite lookup_insert_ne by exact Hne. rewrite Hnone.
    unfold timestamped_lookup. simpl. rewrite Hkey, lookup_insert_eq. simpl.
    rewrite Hhs, Hmod. rewrite stored_entry_unmodified by assumption.
    reflexivity. }
  split.
  - apply Hrun; auto.
  - apply Hrun; auto.
Qed.

(** ** What [solve()] keeps *)

Lemma set_result_inputs cached w r w' :
  _set_result env cached w = (r, w') -> same_inputs (self_ w) (self_ w').
Proof.
  unfold _set_result, bind, get_self, put_self, raise. simpl.
  destruct (ResolverStatus.eqb (sd_status cached) ResolverStatus.solved);
    [destruct (sd_variant_handles cached) |];
    intros H; inversion H; subst; simpl; apply with_result_inputs.
Qed.

Lemma get_cached_solve_self w :
  self_ (snd (_get_cached_solve env w)) = self_ w.
Proof.
  destruct (_get_cached_solve env w) as [r w1] eqn:Hget.
  apply get_cached_solve_inv in Hget as (Hs & _). exact Hs.
Qed.

(** The lookup leaves every key but the resolver's own two alone. *)
Lemma get_cached_solve_other w key :
  key <> _memcache_key env (self_ w) false ->
  key <> _memcache_key env (self_ w) true ->
  memcache (snd (_get_cached_solve env w)) !! key = memcache w !! key.
Proof.
  intros Hf Ht.
  destruct (caching_enabled env (self_ w)) eqn:Hc.
  - destruct (Z.eq_dec (timestamp (self_ w)) 0) as [HT | HT].
    + rewrite lookup_no_timestamp_eq by assumption. cbv zeta.
      destruct (memcache w !! _memcache_key env (self_ w) false) as [d |];
        [| reflexivity].
      destruct (sd_variant_handles (solver_dict d)); [| reflexivity].
      destruct (_ || _); simpl; [| reflexivity].
      apply lookup_delete_ne. congruence.
    + rewrite lookup_timestamp_eq by assumption. cbv zeta.
      destruct (memcache w !! _memcache_key env (self_ w) false) as [d |].
      * destruct (sd_variant_handles (solver_dict d)); [| reflexivity].
        destruct (_ || _).
        -- rewrite timestamped_lookup_other by exact Ht. simpl.
           apply lookup_delete_ne. congruence.
        -- destruct (negb _); [reflexivity |].
           apply timestamped_lookup_other. exact Ht.
      * apply timestamped_lookup_other. exact Ht.
  - unfold _get_cached_solve, bind, get_self, ret. simpl. rewrite Hc. reflexivity.
Qed.

(** X11: [solve()] reads and writes the cache under the resolver's own two
    keys only: however it ends, every other key holds what it held
    before, and the resolver's constructor arguments are unchanged. *)
Theorem solve_touches_own_keys_only fuel w r w' key :
  solve env fuel w = (r, w') ->
  key <> _memcache_key env (self_ w) false ->
  key <> _memcache_key env (self_ w) true ->
  memcache w' !! key = memcache w !! key
  /\ same_inputs (self_ w) (self_ w').
Proof.
  intros Hrun Hf Ht.
  pose proof (get_cached_solve_other w key Hf Ht) as Hother.
  pose proof (get_cached_solve_self w) as Hself.
  destruct (_get_cached_solve env w) as [[[cached |] | e |] w1] eqn:Hget;
    simpl in Hother, Hself.
  - destruct (solve_after_hit env fuel w w1 cached Hget) as (self1 & Hin & _ & Heq).
    rewrite Heq in Hrun.
    pose proof (set_result_inputs _ _ _ _ Hrun) as Hin2.
    apply set_result_inv in Hrun as (Hm & _). simpl in Hm, Hin2.
    rewrite Hm. split; [assumption |].
    rewrite <- Hself. eapply same_inputs_trans; eassumption.
  - destruct (solve_after_miss env fuel w w1 r w' Hget Hrun)
      as (self1 & calls & Hin & _ & Hcases). cbv zeta in Hcases.
    rewrite Hself in Hin.
    destruct Hcases as [[-> ->] | (calls0 & args & -> & -> & Hstore)].
    + simpl. split; assumption.
    + apply set_cached_solve_shape in Hstore as (Hs & _ & Hmem). simpl in Hs, Hmem.
      assert (Hin3 : same_inputs (self_ w) (self_ w')).
      { rewrite Hs. eapply same_inputs_trans; [exact Hin | apply with_result_inputs]. }
      split; [| exact Hin3].
      destruct Hmem as [-> | (_ & b & rt & st & ->)]; [assumption |].
      rewrite lookup_insert_ne; [assumption |].
      rewrite <- (same_inputs_key env self1) by apply with_result_inputs.
      rewrite <- (same_inputs_key env (self_ w)) by exact Hin.
      destruct b; congruence.
  - unfold solve in Hrun. unfold bind at 1 in Hrun. rewrite Hget in Hrun.
    inversion Hrun; subst. split; [assumption |].
    rewrite Hself. apply same_inputs_refl.
  - unfold solve in Hrun. unfold bind at 1 in Hrun. rewrite Hget in Hrun.
    inversion Hrun; subst. split; [assumption |].
    rewrite Hself. apply same_inputs_refl.
Qed.

(** X12: the entries in the memcache keep the shape the store gives them:
    if every entry is a solved result with its list of variant handles,
    the same holds after [solve()], however it ends. *)
Theorem solve_preserves_cache_well_formed fuel w r w' :
  cache_well_formed (memcache w) ->
  solve env fuel w = (r, w') ->
  cache_well_formed (memcache w').
Proof.
  intros Hwf Hrun.
  destruct (_get_cached_solve env w) as [r1 w1] eqn:Hget.
  pose proof Hget as Hget'.
  apply get_cached_solve_inv in Hget' as (_ & _ & Hsub & _).
  assert (Hwf1 : cache_well_formed (memcache w1)).
  { intros key data Hl. eapply Hwf, Hsub, Hl. }
  destruct r1 as [[cached |] | e |].
  - destruct (solve_after_hit env fuel w w1 cached Hget) as (self1 & _ & _ & Heq).
    rewrite Heq in Hrun. apply set_result_inv in Hrun as (Hm & _).
    simpl in Hm. rewrite Hm. assumption.
  - destruct (solve_after_miss env fuel w w1 r w' Hget Hrun)
      as (self1 & calls & _ & _ & Hcases). cbv zeta in Hcases.
    destruct Hcases as [[-> ->] | (calls0 & args & -> & -> & Hstore)];
      [assumption |].
    apply set_cached_solve_shape in Hstore as (_ & _ & Hmem). simpl in Hmem.
    destruct Hmem as [-> | (Hst & b & rt & st & ->)]; [assumption |].
    intros key data Hl.
    apply lookup_insert_Some in Hl as [[_ <-] | [_ Hl]]; [| eapply Hwf1, Hl].
    simpl. split; [exact Hst |]. apply solver_to_dict_handles. exact Hst.
  - unfold solve in Hrun. unfold bind at 1 in Hrun. rewrite Hget in Hrun.
    inversion Hrun; subst. assumption.
  - unfold solve in Hrun. unfold bind at 1 in Hrun. rewrite Hget in Hrun.
    inversion Hrun; subst. assumption.
Qed.

(** X13: over a memcache of that shape a resolver without a timestamp
    never raises from [solve()]; and when no iterative solve is asked for
    ([start_depth = 0]) it returns whatever the fuel. *)
Theorem solve_no_timestamp_never_raises fuel w :
  timestamp (self_ w) = 0 ->
  cache_well_formed (memcache w) ->
  (forall e, fst (solve env fuel w) <> Raise e)
  /\ (start_depth (self_ w) = 0 -> fst (solve env fuel w) = Ok tt).
Proof.
  intros HT Hwf.
  assert (Hlookup : (exists w1, _get_cached_solve env w = (Ok None, w1))
                    \/ (exists cached w1,
                          _get_cached_solve env w = (Ok (Some cached), w1)
                          /\ sd_variant_handles cached <> None)).
  { destruct (caching_enabled env (self_ w)) eqn:Hc.
    - rewrite lookup_no_timestamp_eq by assumption. cbv zeta.
      destruct (memcache w !! _memcache_key env (self_ w) false) as [d |] eqn:Hl;
        [| eauto].
      destruct (Hwf _ _ Hl) as [_ Hhs].
      destruct (sd_variant_handles (solver_dict d)) as [hs |] eqn:Hd;
        [| contradiction].
      destruct (_ || _); [eauto |].
      right. eexists _, _. split; [reflexivity |]. rewrite Hd. discriminate.
    - left. exists w. unfold _get_cached_solve, bind, get_self, ret. simpl.
      rewrite Hc. reflexivity. }
  destruct Hlookup as [[w1 Hget] | (cached & w1 & Hget & Hhs)].
  - destruct (solve env fuel w) as [r w'] eqn:Hrun.
    destruct (solve_after_miss env fuel w w1 r w' Hget Hrun)
      as (self1 & calls & Hin & _ & Hcases). cbv zeta in Hcases.
    destruct Hcases as [[-> Hw] | (calls0 & args & _ & -> & _)]; simpl.
    + split; [discriminate |]. intros Hs. exfalso.
      (* with [start_depth = 0] the solve runs one solver and needs no fuel *)
      unfold solve in Hrun. unfold bind at 1 in Hrun. rewrite Hget in Hrun.
      unfold bind in Hrun.
      destruct (set_from_cache_spec false w1) as (self1' & Hfc & Hin' & _).
      rewrite Hfc in Hrun.
      assert (Hs1 : start_depth self1' = 0).
      { destruct Hin' as (_ & _ & _ & _ & _ & _ & <-).
        rewrite <- Hs, <- (get_cached_solve_self w), Hget. reflexivity. }
      unfold _solve at 1, bind at 1, get_self at 1 in Hrun. simpl in Hrun.
      rewrite Hs1 in Hrun. simpl in Hrun.
      unfold Solver_solve in Hrun.
      destruct (negb (max_depth self1' =? 0)); simpl in Hrun;
        rewrite set_result_ok in Hrun by apply solver_to_dict_handles;
        match type of Hrun with
        | context [_set_cached_solve env ?c ?w0] =>
            destruct (_set_cached_solve env c w0) as [r4 w4] eqn:Hstore;
            assert (r4 = Ok tt) as ->
              by (eapply set_cached_solve_after_result; [| exact Hstore]; simpl;
                  intros Hst; apply ResolverStatus_eqb_eq in Hst; rewrite Hst;
                  discriminate)
        end; discriminate.
    + split; [discriminate | reflexivity].
  - destruct (solve_after_hit env fuel w w1 cached Hget) as (self1 & _ & _ & Heq).
    rewrite Heq, set_result_ok by (intros _; exact Hhs). simpl.
    split; [discriminate | reflexivity].
Qed.

(** X14: the second solve is served from the cache.  After a live solve
    without a timestamp that ended [solved], with every release time
    known and no two resolved variants of the same name, a resolver with
    the same constructor arguments gets the same status and the same
    resolved packages from the memcache: no solver runs, whatever the
    fuel, and the memcache stays as it is. *)
Theorem second_solve_is_cache_hit fuel fuel' w w1 self2 variants :
  timestamp (self_ w) = 0 ->
  caching_enabled env (self_ w) = true ->
  solve env fuel w = (Ok tt, w1) ->
  from_cache (self_ w1) = false ->
  status_ (self_ w1) = ResolverStatus.solved ->
  resolved_packages (self_ w1) = Some variants ->
  (forall v, v ∈ variants ->
             get_last_release_time env (name v) (package_paths (self_ w)) <> 0) ->
  NoDup (map name variants) ->
  same_inputs (self_ w) self2 ->
  exists w2,
    solve env fuel' (mkWorld self2 (memcache w1) (solver_calls w1)) = (Ok tt, w2)
    /\ from_cache (self_ w2) = true
    /\ solver_calls w2 = solver_calls w1
    /\ memcache w2 = memcache w1
    /\ status_ (self_ w2) = ResolverStatus.solved
    /\ resolved_packages (self_ w2) = Some variants.
Proof.
  intros HT Hc Hrun Hlive Hst Hres Hnz Hnd Hsame.
  pose proof (get_cached_solve_self w) as Hself0.
  destruct (_get_cached_solve env w) as [[[cached0 |] | e |] w0] eqn:Hget;
    simpl in Hself0.
  - exfalso.
    destruct (solve_after_hit env fuel w w0 cached0 Hget) as (self1 & _ & Htrue & Heq).
    rewrite Heq in Hrun. apply set_result_from_cache in Hrun. simpl in Hrun.
    congruence.
  - destruct (solve_after_miss env fuel w w0 (Ok tt) w1 Hget Hrun)
      as (self1 & calls & Hin & _ & Hcases). cbv zeta in Hcases.
    rewrite Hself0 in Hin.
    destruct Hcases as [[Hr _] | (calls0 & args & -> & _ & Hstore)];
      [discriminate |].
    set (cached := _solver_to_dict (run_solver env args)) in *.
    pose proof (set_cached_solve_shape env _ _ _ _ Hstore) as (Hs1 & _ & _).
    simpl in Hs1.
    assert (Hsolved : sd_status cached = ResolverStatus.solved).
    { rewrite Hs1 in Hst. exact Hst. }
    assert (Hhs : exists hs, sd_variant_handles cached = Some hs
                             /\ variants = map (get_variant env) hs).
    { unfold resolved_packages in Hres. rewrite Hs1 in Hres. simpl in Hres.
      rewrite Hsolved in Hres. simpl in Hres.
      pose proof (solver_to_dict_handles _ Hsolved) as Hsome. fold cached in Hsome.
      destruct (sd_variant_handles cached) as [hs |]; [| contradiction].
      exists hs. split; [reflexivity |]. simpl in Hres. congruence. }
    destruct Hhs as (hs & Hhs & ->).
    set (self3 := with_result self1 cached
                    (if ResolverStatus.eqb (sd_status cached) ResolverStatus.solved
                     then Some (map (get_variant env)
                                  (default [] (sd_variant_handles cached)))
                     else None)) in *.
    assert (Hin3 : same_inputs (self_ w) self3).
    { eapply same_inputs_trans; [exact Hin | apply with_result_inputs]. }
    assert (Hpaths3 : package_paths self3 = package_paths (self_ w))
      by (symmetry; apply Hin3).
    assert (HT3 : timestamp self3 = 0).
    { destruct Hin3 as (_ & _ & <- & _). exact HT. }
    rewrite (set_cached_solve_written cached _ (map (get_variant env) hs))
      in Hstore.
    2: { simpl. rewrite <- (same_inputs_caching env _ _ Hin3). exact Hc. }
    2: { simpl. exact Hsolved. }
    2: { simpl. subst self3. simpl. rewrite Hsolved, Hhs. reflexivity. }
    2: { simpl. intros v Hv. unfold release_time_of. rewrite Hpaths3.
         apply Hnz. exact Hv. }
    cbn [self_ memcache solver_calls] in Hstore. rewrite HT3 in Hstore.
    cbn [Z.eqb negb andb] in Hstore.
    inversion Hstore as [Hw1]. clear Hstore. cbn [self_ memcache solver_calls].
    (* the second resolver's lookup *)
    assert (Hin2 : same_inputs self3 self2).
    { eapply same_inputs_trans; [| exact Hsame].
      destruct Hin3 as (H1 & H2 & H3 & H4 & H5 & H6 & H7). repeat split; congruence. }
    set (m1 := <[_memcache_key env self3 false :=
                   stored_entry env self3 cached (map (get_variant env) hs)]>
                 (memcache w0)) in *.
    set (w2 := mkWorld self2 m1 (solver_calls w0 ++ calls0 ++ [args])).
    assert (Hget2 : _get_cached_solve env w2 = (Ok (Some cached), w2)).
    { rewrite lookup_no_timestamp_eq.
      - cbv zeta. simpl.
        rewrite <- (same_inputs_key env self3 self2 false Hin2).
        unfold m1. rewrite lookup_insert_eq. simpl. rewrite Hhs.
        rewrite stored_entry_unmodified by assumption.
        rewrite stored_entry_no_releases by (symmetry; apply Hin2).
        reflexivity.
      - simpl. destruct Hsame as (_ & _ & <- & _). exact HT.
      - simpl. rewrite <- (same_inputs_caching env _ _ Hsame). exact Hc. }
    destruct (solve_after_hit env fuel' w2 w2 cached Hget2)
      as (self4 & Hin4 & Htrue & Heq).
    rewrite set_result_ok in Heq by (intros _; rewrite Hhs; discriminate).
    eexists. split; [exact Heq |]. simpl. rewrite Hsolved, Hhs. simpl.
    repeat split; assumption.
  - unfold solve in Hrun. unfold bind at 1 in Hrun. rewrite Hget in Hrun.
    discriminate.
  - unfold solve in Hrun. unfold bind at 1 in Hrun. rewrite Hget in Hrun.
    discriminate.
Qed.

(** ** More on the iterative solve *)

Lemma iterative_solve_depths fuel self :
  0 < max_depth self ->
  forall depth w r w' lo,
    lo <= depth <= max_depth self ->
    0 < depth ->
    iterative_solve env fuel self depth w = (r, w') ->
    exists calls,
      w' = logged w calls
      /\ (forall args, args ∈ calls ->
            exists d, args = kwargs env self (Some d) /\ lo <= d <= max_depth self).
Proof.
  intros Hmax. induction fuel as [| fuel IH]; intros depth w r w' lo Hd Hpos H.
  - unfold iterative_solve, out_of_fuel in H. inversion H; subst.
    exists []. rewrite logged_nil. split; [reflexivity |].
    intros args Hin. inversion Hin.
  - rewrite iterative_solve_step in H. cbv zeta in H.
    assert (Hhere : forall args, args ∈ [kwargs env self (Some depth)] ->
              exists d, args = kwargs env self (Some d) /\ lo <= d <= max_depth self).
    { intros args Hin. apply list_elem_of_singleton in Hin as ->. eauto. }
    destruct (stops (solver_at env self depth) || _).
    + inversion H; subst. eauto.
    + assert (Hnz : negb (max_depth self =? 0) = true)
        by (apply negb_true_iff, Z.eqb_neq; lia).
      rewrite Hnz in H.
      apply (IH _ _ _ _ lo) in H as (calls & -> & Hall); [| lia | lia].
      exists (kwargs env self (Some depth) :: calls).
      rewrite logged_logged. split; [reflexivity |].
      intros args Hin. apply elem_of_cons in Hin as [-> | Hin]; [eauto |].
      apply Hall. assumption.
Qed.

(** X15: the depth limit is respected.  With [0 < start_depth <=
    max_depth], every solver the iterative solve runs, however it ends,
    gets the resolver's own arguments and a depth between [start_depth]
    and [max_depth]. *)
Theorem solve_depths_within_bounds fuel w r w' :
  0 < start_depth (self_ w) <= max_depth (self_ w) ->
  _solve env fuel w = (r, w') ->
  exists calls,
    solver_calls w' = solver_calls w ++ calls
    /\ (forall args, args ∈ calls ->
          exists depth,
            args = kwargs env (self_ w) (Some depth)
            /\ start_depth (self_ w) <= depth <= max_depth (self_ w)).
Proof.
  intros [Hs Hm] Hrun. rewrite solve_iterative in Hrun by lia.
  apply (iterative_solve_depths fuel (self_ w) ltac:(lia) _ _ _ _
           (start_depth (self_ w))) in Hrun as (calls & -> & Hall); [| lia | lia].
  exists calls. split; [reflexivity | exact Hall].
Qed.

(** The loop when no solver ends it: the depths double up to the limit. *)
Lemma iterative_solve_exhausts self :
  0 < max_depth self ->
  (forall depth, stops (solver_at env self depth) = false) ->
  forall (k : nat) depth fuel w,
    0 < depth <= max_depth self ->
    (forall j : nat, (j < k)%nat -> depth * 2 ^ Z.of_nat j < max_depth self) ->
    max_depth self <= depth * 2 ^ Z.of_nat k ->
    (k < fuel)%nat ->
    iterative_solve env fuel self depth w =
    (Ok (solver_at env self (max_depth self)),
     logged w (map (fun i : nat =>
                      kwargs env self
                        (Some (Z.min (depth * 2 ^ Z.of_nat i) (max_depth self))))
                   (seq 0 (S k)))).
Proof.
  intros Hmax Hgo.
  assert (Hnz : negb (max_depth self =? 0) = true)
    by (apply negb_true_iff, Z.eqb_neq; lia).
  induction k as [| k IH]; intros depth fuel w Hd Hlt Hle Hfuel;
    (destruct fuel as [| fuel]; [lia |]); rewrite iterative_solve_step; cbv zeta;
    rewrite Hgo, Hnz; cbn [orb andb].
  - change (2 ^ Z.of_nat 0) with 1 in *. rewrite Z.mul_1_r in Hle.
    assert (depth = max_depth self) as -> by lia.
    rewrite Z.leb_refl. cbn [map seq]. change (2 ^ Z.of_nat 0) with 1.
    rewrite Z.mul_1_r, Z.min_id. reflexivity.
  - pose proof (Hlt O ltac:(lia)) as H0.
    change (2 ^ Z.of_nat 0) with 1 in H0. rewrite Z.mul_1_r in H0.
    destruct (Z.leb_spec (max_depth self) depth) as [| _]; [lia |].
    assert (Hpow : forall i : nat, 0 < 2 ^ Z.of_nat i)
      by (intros i; apply Z.pow_pos_nonneg; lia).
    assert (Hshift : forall i : nat,
               2 ^ Z.of_nat (S i) = 2 * 2 ^ Z.of_nat i).
    { intros i. rewrite Nat2Z.inj_succ, Z.pow_succ_r by lia. reflexivity. }
    rewrite (IH (Z.min (depth * 2) (max_depth self)) fuel).
    + rewrite logged_logged. do 3 f_equal.
      change (seq 0 (S (S k))) with (0%nat :: seq 1 (S k)).
      rewrite <- (seq_shift (S k) 0), map_cons, map_map.
      change (2 ^ Z.of_nat 0) with 1. rewrite Z.mul_1_r.
      rewrite (Z.min_l depth) by lia. cbn [app]. f_equal.
      apply map_ext. intros i. do 2 f_equal. rewrite Hshift.
      specialize (Hpow i).
      destruct (Z.min_spec (depth * 2) (max_depth self)) as [[_ ->] | [Hge ->]];
        [f_equal; lia |].
      rewrite (Z.min_r (max_depth self * 2 ^ Z.of_nat i)) by nia.
      rewrite (Z.min_r (depth * (2 * 2 ^ Z.of_nat i))) by nia. reflexivity.
    + lia.
    + intros j Hj.
      destruct (Z.min_spec (depth * 2) (max_depth self)) as [[_ ->] | [Hge ->]].
      * specialize (Hlt (S j) ltac:(lia)). rewrite Hshift in Hlt. lia.
      * exfalso. specialize (Hlt 1%nat ltac:(lia)).
        change (2 ^ Z.of_nat 1) with 2 in Hlt. lia.
    + rewrite Hshift in Hle. specialize (Hpow k).
      destruct (Z.min_spec (depth * 2) (max_depth self)) as [[_ ->] | [_ ->]]; nia.
    + lia.
Qed.

(** X16: the bound on the number of solvers is attained.  With
    [0 < start_depth <= max_depth] and no solver solved or complete, the
    iterative solve runs exactly [⌈log₂(max_depth / start_depth)⌉ + 1]
    solvers, at the depths [start_depth], [2 start_depth], ... capped at
    [max_depth], and returns the last one, run at [max_depth] itself. *)
Theorem solve_iterative_exhausts fuel w :
  let self := self_ w in
  let n := Z.to_nat (ceil_log2_ratio (max_depth self) (start_depth self)) in
  0 < start_depth self <= max_depth self ->
  (forall depth, stops (solver_at env self depth) = false) ->
  (n < fuel)%nat ->
  _solve env fuel w =
  (Ok (solver_at env self (max_depth self)),
   logged w (map (fun i : nat =>
                    kwargs env self
                      (Some (Z.min (start_depth self * 2 ^ Z.of_nat i)
                                   (max_depth self))))
                 (seq 0 (S n)))).
Proof.
  intros self n [Hs Hm] Hgo Hfuel.
  rewrite solve_iterative by (fold self; lia). fold self.
  destruct (ceil_log2_ratio_spec (max_depth self) (start_depth self))
    as (Hk & Hpow & Hleast); [lia |].
  apply iterative_solve_exhausts; try assumption; try lia.
  - intros j Hj.
    destruct (Z.lt_ge_cases (start_depth self * 2 ^ Z.of_nat j) (max_depth self))
      as [| Hge]; [assumption |].
    specialize (Hleast (Z.of_nat j) ltac:(lia) Hge). subst n. lia.
  - subst n. rewrite Z2Nat.id by assumption. assumption.
Qed.

(** X17: without a depth limit nothing but the solver ends the loop: with
    [start_depth] set, [max_depth = 0] and a solver that is never solved
    and never complete, the iterative solve does not return, however much
    fuel it is given, and has by then run one solver per unit of fuel. *)
Theorem solve_iterative_unbounded_diverges fuel w :
  start_depth (self_ w) <> 0 ->
  max_depth (self_ w) = 0 ->
  (forall depth, stops (solver_at env (self_ w) depth) = false) ->
  exists w',
    _solve env fuel w = (OutOfFuel, w')
    /\ length (solver_calls w') = (length (solver_calls w) + fuel)%nat.
Proof.
  intros Hs Hmax Hgo. rewrite solve_iterative by assumption.
  generalize (start_depth (self_ w)) as depth.
  assert (Hgen : forall depth w0,
             self_ w0 = self_ w ->
             exists w',
               iterative_solve env fuel (self_ w) depth w0 = (OutOfFuel, w')
               /\ length (solver_calls w') = (length (solver_calls w0) + fuel)%nat).
  { induction fuel as [| fuel IH]; intros depth w0 Hself.
    - exists w0. split; [reflexivity | lia].
    - rewrite iterative_solve_step. cbv zeta. rewrite Hgo, Hmax. cbn [orb andb negb Z.eqb].
      destruct (IH (depth * 2) (logged w0 [kwargs env (self_ w) (Some depth)]))
        as (w' & Hrun & Hlen); [exact Hself |].
      exists w'. split; [exact Hrun |]. rewrite Hlen. simpl.
      rewrite length_app. simpl. lia. }
  intros depth. apply Hgen. reflexivity.
Qed.

End RoundTrips.

(** * Properties of rez.utils.elf *)

(** ** Facts about the string methods *)

Lemma split_on_nonempty sep s : split_on sep s <> [].
Proof.
  destruct s as [| c rest]; simpl; [discriminate |].
  destruct (Ascii.eqb c sep); [discriminate |].
  destruct (split_on sep rest); discriminate.
Qed.

Lemma split_on_no_sep sep s :
  string_mem sep s = false -> split_on sep s = [s].
Proof.
  induction s as [| c rest IH]; simpl; intros Hmem; [reflexivity |].
  apply orb_false_iff in Hmem as [Hc Hrest].
  rewrite Hc, (IH Hrest). reflexivity.
Qed.

Lemma split_on_app sep a b :
  string_mem sep a = false ->
  split_on sep (a +:+ String sep b) = a :: split_on sep b.
Proof.
  induction a as [| c rest IH]; simpl; intros Hmem.
  - rewrite Ascii.eqb_refl. reflexivity.
  - apply orb_false_iff in Hmem as [Hc Hrest].
    rewrite Hc, (IH Hrest). reflexivity.
Qed.

(** [sep.join(fields).split(sep)] gives the fields back. *)
Lemma split_on_concat sep fields :
  fields <> [] ->
  Forall (fun field => string_mem sep field = false) fields ->
  split_on sep (String.concat (String sep EmptyString) fields) = fields.
Proof.
  induction fields as [| x rest IH]; intros Hne Hall; [contradiction |].
  apply Forall_cons in Hall as [Hx Hrest].
  destruct rest as [| y rest'].
  - simpl. apply split_on_no_sep. assumption.
  - change (String.concat (String sep EmptyString) (x :: y :: rest'))
      with (x +:+ String sep (String.concat (String sep EmptyString) (y :: rest'))).
    rewrite split_on_app by assumption.
    rewrite IH by (assumption || discriminate). reflexivity.
Qed.

Lemma drop_last_app s c : drop_last (s +:+ String c EmptyString) = s.
Proof.
  induction s as [| c' rest IH]; simpl; [reflexivity |].
  rewrite IH. destruct rest; reflexivity.
Qed.

Lemma slice_1_m1_brackets c1 c2 s :
  slice_1_m1 (String c1 (s +:+ String c2 EmptyString)) = s.
Proof. simpl. apply drop_last_app. Qed.

Lemma tokens_rstrip s : tokens (rstrip s) = tokens s.
Proof.
  induction s as [| c rest IH]; simpl; [reflexivity |].
  destruct (rstrip rest) as [| c' kept] eqn:Hr.
  - rewrite <- IH. simpl. destruct (isspace c) eqn:Hc; simpl; rewrite ?Hc; reflexivity.
  - rewrite <- IH. reflexivity.
Qed.

Lemma split_ws_lstrip s : split_ws (lstrip s) = split_ws s.
Proof.
  induction s as [| c rest IH]; simpl; [reflexivity |].
  destruct (isspace c) eqn:Hc; [| reflexivity].
  rewrite IH. unfold split_ws. simpl. rewrite Hc.
  destruct (tokens rest) as [word words]. reflexivity.
Qed.

(** Stripping before splitting on whitespace changes nothing. *)
Lemma split_ws_strip s : split_ws (strip s) = split_ws s.
Proof.
  unfold strip. rewrite <- (split_ws_lstrip s).
  unfold split_ws. rewrite tokens_rstrip. reflexivity.
Qed.

Lemma list_mem_true x parts : list_mem x parts = true <-> x ∈ parts.
Proof.
  unfold list_mem. rewrite existsb_exists. split.
  - intros [y [Hin Heq]]. apply String.eqb_eq in Heq as ->.
    apply list_elem_of_In. assumption.
  - intros Hin. exists x. split; [apply list_elem_of_In; assumption |].
    apply String.eqb_refl.
Qed.

Section ElfFacts.

Variable popen : list string -> option (gmap string string) -> Completed.
Variable quote : string -> string.

Lemma rpaths_of_line_none line :
  rpaths_of_line line = None <->
  (("(RPATH)" ∉ split_ws line) /\ ("(RUNPATH)" ∉ split_ws line)).
Proof.
  unfold rpaths_of_line. rewrite split_ws_strip. split.
  - intros Hnone.
    destruct (list_mem "(RPATH)" (split_ws line)
              || list_mem "(RUNPATH)" (split_ws line)) eqn:Hmem.
    + destruct (last (split_ws line)); discriminate.
    + apply orb_false_iff in Hmem as [H1 H2].
      split; intros Hin; apply list_mem_true in Hin; congruence.
  - intros [H1 H2].
    assert (Hf1 : list_mem "(RPATH)" (split_ws line) = false).
    { apply not_true_is_false. intros Hin. apply list_mem_true in Hin. auto. }
    assert (Hf2 : list_mem "(RUNPATH)" (split_ws line) = false).
    { apply not_true_is_false. intros Hin. apply list_mem_true in Hin. auto. }
    rewrite Hf1, Hf2. reflexivity.
Qed.

Lemma rpaths_of_line_some line :
  "(RPATH)" ∈ split_ws line \/ "(RUNPATH)" ∈ split_ws line ->
  exists txt,
    last (split_ws line) = Some txt
    /\ rpaths_of_line line = Some (inr (split_on ":" (slice_1_m1 txt))).
Proof.
  intros Hin. unfold rpaths_of_line. rewrite split_ws_strip.
  assert (Hmem : list_mem "(RPATH)" (split_ws line)
                 || list_mem "(RUNPATH)" (split_ws line) = true).
  { apply orb_true_iff. rewrite !list_mem_true. exact Hin. }
  rewrite Hmem.
  destruct (last (split_ws line)) as [txt |] eqn:Hlast.
  - exists txt. split; [reflexivity |].
    pose proof (split_on_nonempty ":" (slice_1_m1 txt)) as Hne.
    destruct (split_on ":" (slice_1_m1 txt)); [contradiction | reflexivity].
  - exfalso. apply last_None in Hlast. rewrite Hlast in Hin.
    destruct Hin as [Hin | Hin]; inversion Hin.
Qed.

Lemma scan_lines_skip pre lines :
  Forall (fun line => ("(RPATH)" ∉ split_ws line) /\ ("(RUNPATH)" ∉ split_ws line)) pre ->
  scan_lines (pre ++ lines) = scan_lines lines.
Proof.
  induction pre as [| line rest IH]; intros Hall; [reflexivity |].
  apply Forall_cons in Hall as [Hline Hrest]. simpl.
  apply rpaths_of_line_none in Hline. rewrite Hline. apply IH. assumption.
Qed.

Lemma scan_lines_empty lines :
  scan_lines lines = inr [] <->
  Forall (fun line => ("(RPATH)" ∉ split_ws line) /\ ("(RUNPATH)" ∉ split_ws line)) lines.
Proof.
  induction lines as [| line rest IH]; simpl.
  - split; [constructor | reflexivity].
  - destruct (rpaths_of_line line) as [result |] eqn:Hline.
    + split.
      * intros ->. exfalso.
        assert (Hin : "(RPATH)" ∈ split_ws line \/ "(RUNPATH)" ∈ split_ws line).
        { destruct (decide ("(RPATH)" ∈ split_ws line)) as [| H1]; [auto |].
          destruct (decide ("(RUNPATH)" ∈ split_ws line)) as [| H2]; [auto |].
          assert (rpaths_of_line line = None) by (apply rpaths_of_line_none; auto).
          congruence. }
        destruct (rpaths_of_line_some line Hin) as (txt & _ & Hsome).
        rewrite Hsome in Hline. inversion Hline as [Heq].
        exact (split_on_nonempty _ _ Heq).
      * intros Hall. apply Forall_cons in Hall as [Hno _].
        apply rpaths_of_line_none in Hno. congruence.
    + rewrite IH. apply rpaths_of_line_none in Hline. split.
      * intros Hall. constructor; assumption.
      * intros Hall. apply Forall_cons in Hall as [_ Hrest]. assumption.
Qed.

Lemma scan_lines_no_index_error lines : scan_lines lines <> inl IndexError.
Proof.
  induction lines as [| line rest IH]; simpl; [discriminate |].
  destruct (rpaths_of_line line) as [result |] eqn:Hline; [| exact IH].
  unfold rpaths_of_line in Hline.
  destruct (list_mem "(RPATH)" (split_ws (strip line))
            || list_mem "(RUNPATH)" (split_ws (strip line))) eqn:Hmem;
    [| discriminate].
  destruct (last (split_ws (strip line))) as [txt |] eqn:Hlast.
  - inversion Hline. discriminate.
  - exfalso. apply last_None in Hlast. rewrite Hlast in Hmem. discriminate.
Qed.

Lemma get_rpaths_eq elfpath log :
  get_rpaths popen quote elfpath log =
  let proc := popen ["readelf"; "-d"; elfpath] None in
  (if negb (returncode proc =? 0)
   then inl (RuntimeError (failure_message quote ["readelf"; "-d"; elfpath] proc))
   else scan_lines (split_on newline (proc_out proc)),
   log ++ [Ran ["readelf"; "-d"; elfpath] None]).
Proof.
  unfold get_rpaths, _run. cbv zeta.
  destruct (negb (returncode (popen ["readelf"; "-d"; elfpath] None) =? 0));
    reflexivity.
Qed.

(** X18: [get_rpaths] returns the empty list exactly when no line of the
    readelf output has the word [(RPATH)] or [(RUNPATH)]; a dynamic
    section with one of them never yields an empty list. *)
Theorem get_rpaths_empty_iff elfpath log :
  returncode (popen ["readelf"; "-d"; elfpath] None) = 0 ->
  (fst (get_rpaths popen quote elfpath log) = inr [] <->
   forall line,
      line ∈ split_on newline (proc_out (popen ["readelf"; "-d"; elfpath] None)) ->
      ("(RPATH)" ∉ split_ws line) /\ ("(RUNPATH)" ∉ split_ws line)).
Proof.
  intros Hok. rewrite get_rpaths_eq. cbv zeta. rewrite Hok. simpl.
  rewrite scan_lines_empty, Forall_forall. reflexivity.
Qed.

(** X19: [get_rpaths] runs [readelf -d elfpath] once, with the inherited
    environment; it raises [RuntimeError] exactly when readelf exits with
    a nonzero code, and nothing else: the index [parts[-1]] is always in
    range. *)
Theorem get_rpaths_errors elfpath log :
  snd (get_rpaths popen quote elfpath log) = log ++ [Ran ["readelf"; "-d"; elfpath] None]
  /\ fst (get_rpaths popen quote elfpath log) <> inl IndexError
  /\ ((exists message,
          fst (get_rpaths popen quote elfpath log) = inl (RuntimeError message))
      <-> returncode (popen ["readelf"; "-d"; elfpath] None) <> 0).
Proof.
  rewrite get_rpaths_eq. cbv zeta. simpl. split; [reflexivity |].
  destruct (Z.eqb_spec (returncode (popen ["readelf"; "-d"; elfpath] None)) 0)
    as [Hz | Hnz]; simpl.
  - split; [apply scan_lines_no_index_error |]. split; [| contradiction].
    intros [message Heq]. exfalso. revert Heq.
    generalize (split_on newline (proc_out (popen ["readelf"; "-d"; elfpath] None))).
    intros lines. induction lines as [| line rest IH]; simpl; [discriminate |].
    destruct (rpaths_of_line line) as [result |] eqn:Hline; [| exact IH].
    unfold rpaths_of_line in Hline.
    destruct (_ || _); [| discriminate].
    destruct (last _); inversion Hline; discriminate.
  - split; [discriminate |]. split; [intros _; exact Hnz | eauto].
Qed.

(** X20: what [patch_rpaths] writes, [get_rpaths] reads back.  For a
    nonempty list of rpaths without colons, [patch_rpaths] hands patchelf
    the rpaths joined by colons; and when the first line of the readelf
    output with the word [(RPATH)] or [(RUNPATH)] ends in that string in
    brackets, [get_rpaths] returns the list, whatever follows. *)
Theorem get_rpaths_reads_joined environ elfpath log log0 pre line post parts rpaths :
  rpaths <> [] ->
  Forall (fun rpath => string_mem ":" rpath = false) rpaths ->
  returncode (popen ["readelf"; "-d"; elfpath] None) = 0 ->
  split_on newline (proc_out (popen ["readelf"; "-d"; elfpath] None))
    = pre ++ line :: post ->
  Forall (fun line => ("(RPATH)" ∉ split_ws line) /\ ("(RUNPATH)" ∉ split_ws line)) pre ->
  split_ws line = parts ++ ["[" +:+ (String.concat ":" rpaths +:+ "]")] ->
  "(RPATH)" ∈ parts \/ "(RUNPATH)" ∈ parts ->
  fst (get_rpaths popen quote elfpath log) = inr rpaths
  /\ snd (patch_rpaths popen quote environ elfpath rpaths log0) =
     log0 ++ [EnterWritable elfpath;
              Ran ["patchelf"; "--set-rpath"; String.concat ":" rpaths; elfpath]
                  (Some (<["ORIGIN" := "$ORIGIN"]> environ));
              ExitWritable elfpath].
Proof.
  intros Hne Hcolon Hok Hlines Hpre Hparts Hword. split.
  - rewrite get_rpaths_eq. cbv zeta. rewrite Hok. simpl.
    rewrite Hlines, scan_lines_skip by assumption. simpl.
    destruct (rpaths_of_line_some line) as (txt & Hlast & Hsome).
    { rewrite Hparts. destruct Hword as [H | H]; [left | right];
        apply elem_of_app; left; exact H. }
    rewrite Hsome. rewrite Hparts, last_snoc in Hlast. inversion Hlast; subst.
    f_equal. change ("[" +:+ (String.concat ":" rpaths +:+ "]"))
      with (String "[" (String.concat ":" rpaths +:+ String "]" EmptyString)).
    rewrite slice_1_m1_brackets. apply (split_on_concat ":"); assumption.
  - unfold patch_rpaths, _run. cbv zeta.
    destruct rpaths as [| r rs]; [contradiction |].
    destruct (negb _); simpl; rewrite <- !app_assoc; reflexivity.
Qed.

End ElfFacts.

(** * Properties of rez.cli.bind *)

Section BindFacts.

Context {Range Variant : Type}.
Variable env : @cli_bind.Env Range Variant.

Definition quickstart_bind (path name : string) : @cli_bind.Event Range Variant :=
  cli_bind.BindPackage name path cli_bind.NotPassed (cli_bind.Passed true)
    cli_bind.NotPassed (cli_bind.Passed true).

Lemma bind_each_binds path names :
  forall trace variants,
    List.filter cli_bind.is_bind (fst (cli_bind.bind_each env path names trace variants))
    = List.filter cli_bind.is_bind trace ++ map (quickstart_bind path) names.
Proof.
  induction names as [| name rest IH]; intros trace variants; simpl.
  - rewrite app_nil_r. reflexivity.
  - rewrite IH, !List.filter_app. simpl. rewrite app_nil_r, <- app_assoc. reflexivity.
Qed.

Lemma bind_each_other path names :
  forall trace variants e,
    e ∈ fst (cli_bind.bind_each env path names trace variants) ->
    e ∈ trace \/ cli_bind.is_bind e = true \/ exists text, e = cli_bind.Print text.
Proof.
  induction names as [| name rest IH]; intros trace variants e Hin; simpl in Hin.
  - auto.
  - apply IH in Hin as [Hin | Hin]; [| auto].
    apply elem_of_app in Hin as [Hin | Hin].
    + apply elem_of_app in Hin as [Hin | Hin]; [auto |].
      apply list_elem_of_singleton in Hin as ->. eauto.
    + apply list_elem_of_singleton in Hin as ->. auto.
Qed.

Lemma filter_bind_elem (trace : list (@cli_bind.Event Range Variant)) e :
  e ∈ trace -> cli_bind.is_bind e = true -> e ∈ List.filter cli_bind.is_bind trace.
Proof.
  intros Hin Hb. apply list_elem_of_In, List.filter_In.
  split; [apply list_elem_of_In; assumption | assumption].
Qed.

(** The binds of a quickstart. *)
Lemma command_quickstart_binds opts :
  cli_bind.list_ opts = false ->
  cli_bind.quickstart opts = true ->
  List.filter cli_bind.is_bind (cli_bind.command env opts)
  = map (quickstart_bind (cli_bind.choose_install_path env opts))
        cli_bind.quickstart_names.
Proof.
  intros Hl Hq. unfold cli_bind.command. rewrite Hl, Hq. cbv zeta.
  pose proof (bind_each_binds (cli_bind.choose_install_path env opts)
                cli_bind.quickstart_names [] []) as Hb.
  destruct (cli_bind.bind_each env _ cli_bind.quickstart_names [] [])
    as [trace variants].
  simpl in Hb. destruct variants; rewrite !List.filter_app, Hb; simpl;
    rewrite ?app_nil_r; reflexivity.
Qed.

(** X21: every package the command binds, in whatever mode, goes into the
    install path chosen at the start: the release path with [--release],
    whatever [-i] says; otherwise the path given with [-i] if it is not
    empty; otherwise the local packages path. *)
Theorem command_binds_into_install_path opts name path version_range
    no_deps bind_args quiet :
  cli_bind.BindPackage name path version_range no_deps bind_args quiet
    ∈ cli_bind.command env opts ->
  (cli_bind.release opts = true -> path = cli_bind.release_packages_path env)
  /\ (cli_bind.release opts = false ->
      forall given, cli_bind.install_path opts = Some given -> given <> EmptyString ->
                    path = given)
  /\ (cli_bind.release opts = false ->
      cli_bind.truthy (cli_bind.install_path opts) = false ->
      path = cli_bind.local_packages_path env).
Proof.
  intros Hin.
  assert (Hpath : path = cli_bind.choose_install_path env opts).
  { unfold cli_bind.command in Hin. cbv zeta in Hin.
    destruct (cli_bind.list_ opts) eqn:Hl.
    { apply list_elem_of_singleton in Hin. discriminate. }
    destruct (cli_bind.quickstart opts) eqn:Hq.
    - assert (Hf : cli_bind.BindPackage name path version_range no_deps bind_args quiet
                   ∈ List.filter cli_bind.is_bind (cli_bind.command env opts)).
      { apply filter_bind_elem; [| reflexivity].
        unfold cli_bind.command. rewrite Hl, Hq. exact Hin. }
      rewrite command_quickstart_binds in Hf by assumption.
      apply list_elem_of_In, in_map_iff in Hf as (n & Heq & _).
      unfold quickstart_bind in Heq. inversion Heq. reflexivity.
    - destruct (negb (cli_bind.truthy (cli_bind.PKG opts))).
      { apply list_elem_of_singleton in Hin. discriminate. }
      destruct (cli_bind.search opts);
        apply list_elem_of_singleton in Hin; inversion Hin. reflexivity. }
  subst path. unfold cli_bind.choose_install_path. split; [| split].
  - intros ->. reflexivity.
  - intros -> given -> Hne. destruct given; [contradiction | reflexivity].
  - intros -> ->. reflexivity.
Qed.

(** X22: the command binds something exactly when [--list] is not given
    and either [--quickstart] is, or a package is named and [--search] is
    not given. *)
Theorem command_binds_iff opts :
  (exists e, e ∈ cli_bind.command env opts /\ cli_bind.is_bind e = true) <->
  cli_bind.list_ opts = false
  /\ (cli_bind.quickstart opts = true
      \/ (cli_bind.truthy (cli_bind.PKG opts) = true /\ cli_bind.search opts = false)).
Proof.
  split.
  - intros (e & Hin & Hb). unfold cli_bind.command in Hin. cbv zeta in Hin.
    destruct (cli_bind.list_ opts).
    { apply list_elem_of_singleton in Hin as ->. discriminate. }
    split; [reflexivity |].
    destruct (cli_bind.quickstart opts); [auto |]. right.
    destruct (cli_bind.truthy (cli_bind.PKG opts)); simpl in Hin.
    + split; [reflexivity |].
      destruct (cli_bind.search opts); [| reflexivity].
      apply list_elem_of_singleton in Hin as ->. discriminate.
    + apply list_elem_of_singleton in Hin as ->. discriminate.
  - intros [Hl Hmode].
    destruct (cli_bind.quickstart opts) eqn:Hq.
    + exists (quickstart_bind (cli_bind.choose_install_path env opts) "platform").
      split; [| reflexivity].
      assert (Hf : quickstart_bind (cli_bind.choose_install_path env opts) "platform"
                   ∈ List.filter cli_bind.is_bind (cli_bind.command env opts)).
      { rewrite command_quickstart_binds by assumption. left. }
      apply list_elem_of_In, List.filter_In in Hf as [Hf _].
      apply list_elem_of_In. exact Hf.
    + destruct Hmode as [Hq' | [Hpkg Hs]]; [discriminate |].
      unfold cli_bind.command. rewrite Hl, Hq, Hpkg, Hs. simpl.
      eexists. split; [left | reflexivity].
Qed.

(** X23: a quickstart binds the eight standard packages in their
    dependency order, each without its dependencies and quietly, and
    nothing else; the package named on the command line, [--search],
    [--no-deps] and the bind arguments play no part, and a missing package
    name is no error. *)
Theorem command_quickstart opts :
  cli_bind.list_ opts = false ->
  cli_bind.quickstart opts = true ->
  List.filter cli_bind.is_bind (cli_bind.command env opts)
  = map (quickstart_bind (cli_bind.choose_install_path env opts))
        ["platform"; "arch"; "os"; "python"; "rez"; "rezgui"; "setuptools"; "pip"]
  /\ (forall message, cli_bind.ParserError message ∉ cli_bind.command env opts)
  /\ (forall name verbose, cli_bind.FindBindModule name verbose ∉ cli_bind.command env opts).
Proof.
  intros Hl Hq. split; [apply command_quickstart_binds; assumption |].
  assert (Hshape : forall e, e ∈ cli_bind.command env opts ->
            cli_bind.is_bind e = true
            \/ (exists text, e = cli_bind.Print text)
            \/ (exists variants, e = cli_bind.PrintPackageList variants)).
  { intros e Hin. unfold cli_bind.command in Hin. rewrite Hl, Hq in Hin.
    cbv zeta in Hin.
    pose proof (bind_each_other (cli_bind.choose_install_path env opts)
                  cli_bind.quickstart_names [] []) as Hother.
    destruct (cli_bind.bind_each env _ cli_bind.quickstart_names [] [])
      as [trace variants]. simpl in Hother.
    apply elem_of_app in Hin as [Hin | Hin].
    - assert (Htrace : e ∈ trace -> cli_bind.is_bind e = true
                                    \/ (exists text, e = cli_bind.Print text)
                                    \/ (exists variants, e = cli_bind.PrintPackageList variants)).
      { intros Ht. destruct (Hother e Ht) as [Hnil | [Hb | Hp]];
          [inversion Hnil | auto | auto]. }
      destruct variants as [| v vs]; [auto |].
      apply elem_of_app in Hin as [Hin | Hin]; [auto |].
      repeat (apply elem_of_cons in Hin as [-> | Hin]; [eauto |]).
      inversion Hin.
    - apply list_elem_of_singleton in Hin as ->. eauto. }
  split.
  - intros message Hin.
    destruct (Hshape _ Hin) as [Hb | [[text Heq] | [variants Heq]]]; discriminate.
  - intros name verbose Hin.
    destruct (Hshape _ Hin) as [Hb | [[text Heq] | [variants Heq]]]; discriminate.
Qed.

End BindFacts.

(** * Properties of rez.cli.context *)

Section ContextFacts.

Context {ResolvedContext : Type}.
Variable env : @cli_context.Env ResolvedContext.

Import cli_context.

(** X24: the command ends the process only with status 1, only as its last
    step and only in two cases: there is no context file (none given and
    none current), or a graph is asked for, without [--interpret], from a
    context that has none.  It has then shown nothing.  In particular a
    command that [--which] does not find is no failure. *)
Theorem command_exit opts code :
  SysExit code ∈ command env opts ->
  code = 1
  /\ last (command env opts) = Some (SysExit 1)
  /\ (forall e, e ∈ command env opts -> shows e = false)
  /\ (cli_bind.truthy (rxt_file env opts) = false
      \/ (interpret opts = false
          /\ cli_bind.truthy (which opts) = false
          /\ (print_graph opts = true \/ graph opts = true
              \/ dependency_graph opts = true
              \/ cli_bind.truthy (write_graph opts) = true)
          /\ has_graph env
               (snd (load_context env (default EmptyString (rxt_file env opts))))
             = false)).
Proof.
  unfold command.
  destruct (cli_bind.truthy (rxt_file env opts)) eqn:Hrxt; simpl.
  2: { intros Hin. split.
       - repeat (apply elem_of_cons in Hin as [Hin | Hin]; [inversion Hin; reflexivity |]).
         inversion Hin.
       - split; [reflexivity |]. split; [| auto].
         intros e He.
         repeat (apply elem_of_cons in He as [-> | He]; [reflexivity |]).
         inversion He. }
  destruct (load_context env (default EmptyString (rxt_file env opts)))
    as [loaded rc] eqn:Hload.
  assert (Hloaded : loaded = ReadFromBuffer \/ exists path, loaded = Load path).
  { unfold load_context in Hload. destruct (String.eqb _ "-"); inversion Hload; eauto. }
  simpl.
  destruct (interpret opts); simpl.
  - intros Hin. exfalso.
    apply elem_of_cons in Hin as [Hin | Hin].
    { destruct Hloaded as [-> | [path ->]]; discriminate. }
    unfold print_code in Hin.
    destruct (bool_decide _);
      [destruct (String.eqb (format opts) "table");
       [| destruct (String.eqb (format opts) "dict")] |];
      repeat (apply elem_of_cons in Hin as [Hin | Hin]; [discriminate |]);
      inversion Hin.
  - intros Hin.
    apply elem_of_cons in Hin as [Hin | Hin].
    { exfalso. destruct Hloaded as [-> | [path ->]]; discriminate. }
    unfold inspect in Hin |- *.
    destruct (print_request opts).
    { exfalso. apply list_elem_of_singleton in Hin. discriminate. }
    destruct (print_resolve opts).
    { exfalso. destruct (show_uris opts);
        apply list_elem_of_singleton in Hin; discriminate. }
    destruct (tools opts).
    { exfalso. apply list_elem_of_singleton in Hin. discriminate. }
    destruct (cli_bind.truthy (diff opts)).
    { exfalso. repeat (apply elem_of_cons in Hin as [Hin | Hin]; [discriminate |]).
      inversion Hin. }
    destruct (fetch opts).
    { exfalso. repeat (apply elem_of_cons in Hin as [Hin | Hin]; [discriminate |]).
      inversion Hin. }
    destruct (cli_bind.truthy (which opts)).
    { exfalso. apply elem_of_cons in Hin as [Hin | Hin]; [discriminate |].
      apply list_elem_of_singleton in Hin.
      destruct (cli_bind.truthy (rc_which env rc _ _)); discriminate. }
    assert (Hexit : forall trace,
               SysExit code ∈ match _graph env opts rc with
                              | inl gstr => trace gstr
                              | inr exit => exit
                              end ->
               (forall gstr, SysExit code ∉ trace gstr) ->
               has_graph env rc = false
               /\ _graph env opts rc
                  = inr [Stderr "The context does not contain a graph."; SysExit 1]
               /\ code = 1).
    { intros trace Hin' Hno. unfold _graph in *.
      destruct (has_graph env rc).
      - exfalso. destruct (dependency_graph opts); exact (Hno _ Hin').
      - split; [reflexivity |]. split; [reflexivity |].
        repeat (apply elem_of_cons in Hin' as [Hin' | Hin'];
                [inversion Hin'; reflexivity |]).
        inversion Hin'. }
    assert (Hdone : forall flags : Prop,
               flags ->
               _graph env opts rc
                 = inr [Stderr "The context does not contain a graph."; SysExit 1] ->
               has_graph env rc = false -> code = 1 ->
               forall trace,
               code = 1
               /\ last (loaded :: match _graph env opts rc with
                                  | inl gstr => trace gstr
                                  | inr exit => exit
                                  end) = Some (SysExit 1)
               /\ (forall e, e ∈ loaded :: match _graph env opts rc with
                                           | inl gstr => trace gstr
                                           | inr exit => exit
                                           end -> shows e = false)
               /\ (true = false \/ (false = false /\ false = false /\ flags
                                    /\ has_graph env rc = false))).
    { intros flags Hflags Hg Hno Hcode trace. rewrite Hg.
      split; [assumption |]. split; [reflexivity |]. split; [| auto 6].
      intros e He. apply elem_of_cons in He as [-> | He].
      - destruct Hloaded as [-> | [path ->]]; reflexivity.
      - repeat (apply elem_of_cons in He as [-> | He]; [reflexivity |]).
        inversion He. }
    destruct (print_graph opts) eqn:Hpg.
    { apply Hexit in Hin as (Hno & Hg & Hcode).
      - apply Hdone; auto.
      - intros gstr Hs. apply list_elem_of_singleton in Hs. discriminate. }
    destruct (graph opts || dependency_graph opts
              || cli_bind.truthy (write_graph opts)) eqn:Hflags.
    { apply Hexit in Hin as (Hno & Hg & Hcode).
      - apply Hdone; auto.
        apply orb_true_iff in Hflags as [Hflags | Hflags]; [| auto].
        apply orb_true_iff in Hflags as [Hflags | Hflags]; auto.
      - intros gstr Hs. destruct (graph opts || dependency_graph opts);
          apply list_elem_of_singleton in Hs; discriminate. }
    exfalso. apply list_elem_of_singleton in Hin. discriminate.
Qed.

(** X25: [--interpret] decides what the command is.  The context is asked
    for its environment (or for shell code) exactly when there is a
    context file and [--interpret] is given; whatever is passed on as
    parent environment is the empty one with [--no-env] and none
    otherwise; and with [--interpret] the options that inspect the
    context play no part: two command lines that agree on the context
    file, the format, the style and [--no-env] do the same. *)
Theorem command_interpret opts :
  ((exists e, e ∈ command env opts /\ computes_environ e = true) <->
   cli_bind.truthy (rxt_file env opts) = true /\ interpret opts = true)
  /\ (forall e parent,
        e ∈ command env opts ->
        parent_environ_of e = Some parent ->
        parent = if no_env opts then Some ∅ else None)
  /\ (forall opts',
        interpret opts = true -> interpret opts' = true ->
        RXT opts = RXT opts' -> format opts = format opts' ->
        style opts = style opts' -> no_env opts = no_env opts' ->
        command env opts = command env opts').
Proof.
  split; [| split].
  - unfold command.
    destruct (cli_bind.truthy (rxt_file env opts)) eqn:Hrxt; simpl.
    2: { split; [| intros [? _]; discriminate].
         intros (e & Hin & He).
         repeat (apply elem_of_cons in Hin as [-> | Hin]; [discriminate |]).
         inversion Hin. }
    destruct (load_context env (default EmptyString (rxt_file env opts)))
      as [loaded rc] eqn:Hload.
    assert (Hloaded : computes_environ loaded = false).
    { unfold load_context in Hload. destruct (String.eqb _ "-");
        inversion Hload; reflexivity. }
    destruct (interpret opts); simpl.
    + split; [auto |]. intros _. unfold print_code.
      destruct (bool_decide _); eexists; (split; [right; left | reflexivity]).
    + split; [| intros [_ ?]; discriminate].
      intros (e & Hin & He). exfalso.
      apply elem_of_cons in Hin as [-> | Hin]; [congruence |].
      unfold inspect, _graph in Hin.
      repeat match type of Hin with
             | context [if ?b then _ else _] => destruct b
             end;
        repeat (apply elem_of_cons in Hin as [-> | Hin]; [discriminate |]);
        inversion Hin.
  - intros e parent Hin Hparent. unfold command in Hin.
    destruct (cli_bind.truthy (rxt_file env opts)); simpl in Hin.
    2: { repeat (apply elem_of_cons in Hin as [-> | Hin]; [discriminate |]).
         inversion Hin. }
    destruct (load_context env (default EmptyString (rxt_file env opts)))
      as [loaded rc] eqn:Hload.
    assert (Hloaded : parent_environ_of loaded = None).
    { unfold load_context in Hload. destruct (String.eqb _ "-");
        inversion Hload; reflexivity. }
    destruct (interpret opts); simpl in Hin;
      (apply elem_of_cons in Hin as [-> | Hin]; [congruence |]).
    + unfold print_code in Hin.
      repeat match type of Hin with
             | context [if ?b then _ else _] =>
                 lazymatch b with
                 | no_env opts => fail
                 | _ => destruct b
                 end
             end;
        repeat (apply elem_of_cons in Hin as [-> | Hin];
                [simpl in Hparent; congruence |]);
        inversion Hin.
    + unfold inspect, _graph in Hin.
      repeat match type of Hin with
             | context [if ?b then _ else _] =>
                 lazymatch b with
                 | no_env opts => fail
                 | _ => destruct b
                 end
             end;
        repeat (apply elem_of_cons in Hin as [-> | Hin];
                [simpl in Hparent; congruence |]);
        inversion Hin.
  - intros opts' Hi Hi' Hrxt Hf Hs Hn. unfold command, rxt_file, print_code.
    rewrite Hi, Hi', <- Hrxt, <- Hf, <- Hs, <- Hn. reflexivity.
Qed.

End ContextFacts.

(** * The scenarios, checked *)

Lemma memcache_key_timestamp_zero_witness :
  let self := example_resolver ["A"; "B"] ["/packages"] 0 0 0
                ResolverStatus.pending None in
  _memcache_key solved_env self true = _memcache_key solved_env self false.
Proof.
  apply memcache_key_timestamp_zero. reflexivity.
Defined.




Lemma Resolver_init_depths_witness :
  @Resolver_init string unit string ["A"] ["/packages"] 0 false 4 8 true
    = Raise AssertionError
  /\ exists self,
       @Resolver_init string unit string ["A"] ["/packages"] 0 false 32 4 true = Ok self
       /\ max_depth self = 32 /\ start_depth self = 4
       /\ status_ self = ResolverStatus.pending
       /\ resolved_packages self = None.
Proof.
  split.
  - apply (proj1 (Resolver_init_depths (Requirement := string) (Graph := unit)
                    (Resource := string) ["A"] ["/packages"] 0 false 4 8 true)); lia.
  - apply (proj2 (Resolver_init_depths (Requirement := string) (Graph := unit)
                    (Resource := string) ["A"] ["/packages"] 0 false 32 4 true)).
    right. right. lia.
Defined.

Lemma set_cached_solve_not_solved_witness :
  let self := example_resolver ["A"; "B"] ["/packages"] 0 0 0
                ResolverStatus.failed None in
  let w := example_world solved_env self false in
  _set_cached_solve solved_env example_solver_dict w = (Ok tt, w).
Proof.
  intros self w. apply set_cached_solve_not_solved. discriminate.
Defined.

(** The repository does not know when [B] was last released. *)
Lemma set_cached_solve_unknown_release_time_witness :
  let env := example_env (example_times 100 0)
               (fun _ => example_solver SolverStatus.solved false) in
  let self := example_resolver ["A"; "B"] ["/packages"] 0 0 0
                ResolverStatus.solved (Some resolved_AB) in
  let w := example_world env self false in
  _set_cached_solve env example_solver_dict w = (Ok tt, w)
  /\ memcache (snd (_set_cached_solve env example_solver_dict w)) = memcache w
  /\ self_ (snd (_set_cached_solve env example_solver_dict w)) = self_ w.
Proof.
  intros env self w.
  apply (set_cached_solve_unknown_release_time env example_solver_dict w resolved_AB).
  - reflexivity.
  - reflexivity.
  - exists (example_variant "B"). split; [| reflexivity].
    right. left.
Defined.

(** A solve at [T = 250] after [A] was released again at 300 goes to the
    timestamped key. *)
Lemma set_cached_solve_solved_witness :
  let env := example_env (example_times 300 200)
               (fun _ => example_solver SolverStatus.solved false) in
  let self := example_resolver ["A"; "B"] ["/packages"] 250 0 0
                ResolverStatus.solved (Some resolved_AB) in
  let w := example_world env self false in
  exists release_times variant_states,
    _set_cached_solve env example_solver_dict w =
      (Ok tt, mkWorld self
                (<[_memcache_key env self true :=
                     mkEntry example_solver_dict release_times variant_states]> ∅)
                [])
    /\ release_times !! "A" = Some 300
    /\ release_times !! "B" = Some 200
    /\ variant_states !! "A" = Some (Some 1).
Proof.
  intros env self w.
  destruct (set_cached_solve_solved env example_solver_dict w resolved_AB)
    as (key & rt & st & Hrun & Hkey & Hrt & Hst).
  - reflexivity.
  - reflexivity.
  - reflexivity.
  - intros v Hv.
    apply elem_of_cons in Hv as [-> | Hv]; [discriminate |].
    apply elem_of_cons in Hv as [-> | Hv]; [discriminate | inversion Hv].
  - exists rt, st. split; [| split; [| split]].
    + destruct Hkey as [(_ & _ & -> & _) | [Hno _]]; [exact Hrun |].
      exfalso. apply Hno. split; [discriminate |].
      exists (example_variant "A"). split; [left | reflexivity].
    + rewrite Hrt. reflexivity.
    + rewrite Hrt. reflexivity.
    + rewrite Hst. reflexivity.
Defined.

(** An immediate second solve of [A B] with no timestamp is a hit. *)
Lemma get_cached_solve_no_timestamp_witness :
  let self := example_resolver ["A"; "B"] ["/packages"] 0 0 0
                ResolverStatus.pending None in
  let w := example_world solved_env self true in
  _get_cached_solve solved_env w = (Ok (Some example_solver_dict), w).
Proof.
  intros self w.
  apply (proj1 (get_cached_solve_no_timestamp solved_env w eq_refl eq_refl)).
  split; [reflexivity |].
  exists example_entry. split; [| split; [| split]].
  - apply lookup_singleton_eq.
  - reflexivity.
  - reflexivity.
  - vm_compute. reflexivity.
Defined.

(** The same entry, looked up by a resolver at [T = 250]: the entry could
    be reused, and the lookup raises. *)
Lemma get_cached_solve_reusable_entry_raises_witness :
  let self := example_resolver ["A"; "B"] ["/packages"] 250 0 0
                ResolverStatus.pending None in
  let w := example_world solved_env self true in
  _get_cached_solve solved_env w = (Raise TypeError, w)
  /\ _get_cached_solve solved_env w <> (Ok (Some (solver_dict example_entry)), w).
Proof.
  intros self w.
  apply (get_cached_solve_reusable_entry_raises solved_env w example_entry).
  - discriminate.
  - reflexivity.
  - apply lookup_singleton_eq.
  - reflexivity.
  - vm_compute. reflexivity.
  - vm_compute. reflexivity.
Defined.

Example ceil_log2_ratio_32_4 : ceil_log2_ratio 32 4 = 3.
Proof. reflexivity. Qed.

(** [start_depth = 4], [max_depth = 32]: solvers run at the depths 4, 8
    and 16, the last of them solved. *)
Example solve_iterative_depths :
  let self := example_resolver ["A"; "B"] ["/packages"] 0 32 4
                ResolverStatus.pending None in
  let w := example_world deepening_env self false in
  fst (_solve deepening_env 10 w) = Ok (example_solver SolverStatus.solved true)
  /\ map kw_max_depth (solver_calls (snd (_solve deepening_env 10 w)))
     = [Some 4; Some 8; Some 16].
Proof. split; reflexivity. Qed.

Lemma solve_iterative_terminates_witness :
  let self := example_resolver ["A"; "B"] ["/packages"] 0 32 4
                ResolverStatus.pending None in
  let w := example_world deepening_env self false in
  (exists solver calls,
      _solve deepening_env 4 w = (Ok solver, logged w calls)
      /\ (1 <= length calls <= 4)%nat)
  /\ (let self0 := example_resolver ["A"; "B"] ["/packages"] 0 0 4
                     ResolverStatus.pending None in
      let w0 := example_world deepening_env self0 false in
      _solve deepening_env 3 w0 =
        (Ok (solver_at deepening_env self0 16),
         logged w0 [kwargs deepening_env self0 (Some 4);
                    kwargs deepening_env self0 (Some 8);
                    kwargs deepening_env self0 (Some 16)])).
Proof.
  intros self w. split.
  - destruct (solve_iterative_terminates deepening_env w) as [Hbound _].
    + reflexivity.
    + apply (Hbound ltac:(reflexivity) ltac:(discriminate) 4%nat).
      vm_compute. lia.
  - intros self0 w0.
    destruct (solve_iterative_terminates deepening_env w0) as (_ & _ & Hfree).
    + reflexivity.
    + apply (Hfree eq_refl 2%nat 3%nat).
      * lia.
      * intros i Hi.
        destruct i as [| [| i]]; [reflexivity | reflexivity | lia].
      * reflexivity.
Defined.

Lemma failing_env_describes_failure : solver_describes_failure failing_env.
Proof.
  intros args. split.
  - discriminate.
  - intros _. exists "A conflicts with B". split; [reflexivity | discriminate].
Qed.

(** A live solve that fails. *)
Lemma solve_not_solved_witness :
  let self := example_resolver ["A"; "B"] ["/packages"] 0 0 0
                ResolverStatus.pending None in
  let w := example_world failing_env self false in
  let w' := snd (solve failing_env 1 w) in
  resolved_packages (self_ w') = None
  /\ (status_ (self_ w') = ResolverStatus.failed
      \/ status_ (self_ w') = ResolverStatus.aborted)
  /\ populated (failure_description (self_ w')).
Proof.
  intros self w w'.
  apply (solve_not_solved failing_env 1 w w').
  - intros key data Hl. simpl in Hl. rewrite lookup_empty in Hl. discriminate.
  - exact failing_env_describes_failure.
  - reflexivity.
  - discriminate.
Defined.

(** The failed solve leaves the memcache empty. *)
Example solve_failed_not_cached :
  let self := example_resolver ["A"; "B"] ["/packages"] 0 0 0
                ResolverStatus.pending None in
  let w := example_world failing_env self false in
  memcache (snd (solve failing_env 1 w)) = ∅
  /\ status_ (self_ (snd (solve failing_env 1 w))) = ResolverStatus.failed.
Proof. split; reflexivity. Qed.

(** * More scenarios, checked *)

Lemma names_AB_distinct :
  NoDup (map name (map (get_variant solved_env) ["A"; "B"])).
Proof.
  simpl. apply NoDup_cons. split.
  - intros Hin. apply list_elem_of_singleton in Hin. discriminate.
  - apply NoDup_singleton.
Qed.

Lemma memcache_key_tiers_disjoint_witness :
  let pinned := example_resolver ["A"; "B"] ["/packages"] 250 0 0
                  ResolverStatus.pending None in
  let live := example_resolver ["A"; "B"] ["/packages"] 0 0 0
                ResolverStatus.pending None in
  _memcache_key solved_env pinned true <> _memcache_key solved_env live true
  /\ _memcache_key solved_env pinned true <> _memcache_key solved_env pinned false.
Proof.
  intros pinned live.
  destruct (memcache_key_tiers_disjoint solved_env pinned live) as [Hlive _];
    [discriminate |].
  destruct (memcache_key_tiers_disjoint solved_env pinned pinned) as [Hself _];
    [discriminate |].
  split.
  - apply Hlive. right. reflexivity.
  - apply Hself. left. reflexivity.
Defined.

(** A resolver at [T = 250] with a pinned entry and no live one. *)
Lemma get_cached_solve_timestamped_witness :
  let self := example_resolver ["A"; "B"] ["/packages"] 250 0 0
                ResolverStatus.pending None in
  let w := pinned_world released_env self in
  _get_cached_solve released_env w = (Ok (Some example_solver_dict), w).
Proof.
  intros self w.
  destruct (get_cached_solve_timestamped released_env w) as [Hhit _].
  - discriminate.
  - reflexivity.
  - vm_compute. reflexivity.
  - apply Hhit. split; [reflexivity |].
    exists example_entry. split; [| split].
    + apply lookup_singleton_eq.
    + reflexivity.
    + reflexivity.
Defined.

(** A resolver at [T = 150], before the release of [B] at 200 that the
    live entry records. *)
Lemma get_cached_solve_earlier_timestamp_witness :
  let self := example_resolver ["A"; "B"] ["/packages"] 150 0 0
                ResolverStatus.pending None in
  let w := example_world solved_env self true in
  memcache (snd (_get_cached_solve solved_env w)) !! _memcache_key solved_env self false
    = Some example_entry
  /\ _get_cached_solve solved_env w = (Ok None, w).
Proof.
  intros self w.
  destruct (get_cached_solve_earlier_timestamp solved_env w example_entry)
    as (Hkept & Hmiss & _).
  - discriminate.
  - reflexivity.
  - apply lookup_singleton_eq.
  - reflexivity.
  - vm_compute. reflexivity.
  - vm_compute. reflexivity.
  - split; [exact Hkept |]. apply Hmiss. vm_compute. reflexivity.
Defined.

(** A resolver at [T = 250] after [A] was released at 300: the live entry
    is stale. *)
Lemma get_cached_solve_stale_timestamp_witness :
  let self := example_resolver ["A"; "B"] ["/packages"] 250 0 0
                ResolverStatus.pending None in
  let w := example_world released_env self true in
  memcache (snd (_get_cached_solve released_env w))
    !! _memcache_key released_env self false = None
  /\ _get_cached_solve released_env w =
     (Ok None,
      mkWorld self (delete (_memcache_key released_env self false) (memcache w)) []).
Proof.
  intros self w.
  destruct (get_cached_solve_stale_timestamp released_env w example_entry)
    as (Hgone & Hmiss & _).
  - discriminate.
  - reflexivity.
  - apply lookup_singleton_eq.
  - right. split; [reflexivity | vm_compute; reflexivity].
  - split; [exact Hgone |]. apply Hmiss. vm_compute. reflexivity.
Defined.

Lemma solve_caching_disabled_witness :
  let self := example_resolver ["A"; "B"] ["/packages"] 0 0 0
                ResolverStatus.pending None in
  let w := example_world uncached_env self true in
  memcache (snd (solve uncached_env 1 w)) = memcache w
  /\ from_cache (self_ (snd (solve uncached_env 1 w))) = false.
Proof.
  intros self w.
  destruct (solve_caching_disabled uncached_env 1 w (Ok tt) (snd (solve uncached_env 1 w)))
    as (Hmem & _ & Hlive).
  - reflexivity.
  - reflexivity.
  - split; [exact Hmem |]. apply Hlive. reflexivity.
Defined.

Lemma solve_cache_hit_witness :
  let self := example_resolver ["A"; "B"] ["/packages"] 0 0 0
                ResolverStatus.pending None in
  let w := example_world solved_env self true in
  exists w',
    solve solved_env 0 w = (Ok tt, w')
    /\ solver_calls w' = []
    /\ from_cache (self_ w') = true
    /\ resolved_packages (self_ w') = Some resolved_AB.
Proof.
  intros self w.
  destruct (solve_cache_hit solved_env 0 w example_entry)
    as (w' & hs & Hrun & Hhs & _ & Hcalls & _ & Hfrom & _ & _ & Hres).
  - reflexivity.
  - reflexivity.
  - apply lookup_singleton_eq.
  - reflexivity.
  - vm_compute. reflexivity.
  - exists w'. repeat split; try assumption.
    rewrite Hres. inversion Hhs; subst. reflexivity.
Defined.

Lemma solve_live_result_witness :
  let self := example_resolver ["A"; "B"] ["/packages"] 0 0 0
                ResolverStatus.pending None in
  let w := example_world failing_env self false in
  let w' := snd (solve failing_env 1 w) in
  status_ (self_ w') = ResolverStatus.failed
  /\ failure_description (self_ w') = Some "A conflicts with B"
  /\ resolved_packages (self_ w') = None.
Proof.
  intros self w w'.
  destruct (solve_live_result failing_env 1 w w') as (args & _ & Hst & _ & Hfd & Hres).
  - reflexivity.
  - reflexivity.
  - repeat split; assumption.
Defined.

Lemma resolved_AB_times_known (a b : Z) :
  a <> 0 -> b <> 0 ->
  forall v : @Variant string,
    v ∈ map example_variant ["A"; "B"] ->
    example_times a b (name v) <> 0.
Proof.
  intros Ha Hb v Hv. simpl in Hv.
  apply elem_of_cons in Hv as [-> | Hv]; [exact Ha |].
  apply list_elem_of_singleton in Hv as ->. exact Hb.
Qed.

Lemma store_then_lookup_hits_witness :
  let self := example_resolver ["A"; "B"] ["/packages"] 0 0 0
                ResolverStatus.solved (Some resolved_AB) in
  let w := example_world solved_env self false in
  exists w1,
    _set_cached_solve solved_env example_solver_dict w = (Ok tt, w1)
    /\ _get_cached_solve solved_env w1 = (Ok (Some example_solver_dict), w1).
Proof.
  intros self w.
  apply (store_then_lookup_hits solved_env example_solver_dict w ["A"; "B"]).
  - reflexivity.
  - reflexivity.
  - reflexivity.
  - reflexivity.
  - reflexivity.
  - intros v Hv.
    apply (resolved_AB_times_known 100 200); [lia | lia | exact Hv].
  - exact names_AB_distinct.
Defined.

(** The solve of [A B] is stored, then [A] is released at 300. *)
Lemma store_then_release_misses_witness :
  let self := example_resolver ["A"; "B"] ["/packages"] 0 0 0
                ResolverStatus.solved (Some resolved_AB) in
  let w := example_world solved_env self false in
  exists w1,
    _set_cached_solve solved_env example_solver_dict w = (Ok tt, w1)
    /\ _get_cached_solve
         (with_release_times solved_env (fun n _ => example_times 300 200 n)) w1 =
       (Ok None,
        mkWorld self (delete (_memcache_key solved_env self false) (memcache w1)) []).
Proof.
  intros self w.
  destruct (store_then_release_misses solved_env example_solver_dict w ["A"; "B"]
              (fun n _ => example_times 300 200 n) (example_variant "A"))
    as (w1 & Hstore & _ & Hmiss).
  - reflexivity.
  - reflexivity.
  - reflexivity.
  - reflexivity.
  - reflexivity.
  - intros v Hv.
    apply (resolved_AB_times_known 100 200); [lia | lia | exact Hv].
  - exact names_AB_distinct.
  - left.
  - discriminate.
  - exists w1. split; assumption.
Defined.

(** A solve at [T = 250], stored after [A] was released at 300, and looked
    up again after [B] was released at 400 as well. *)
Lemma store_then_lookup_pinned_witness :
  let self := example_resolver ["A"; "B"] ["/packages"] 250 0 0
                ResolverStatus.solved (Some resolved_AB) in
  let w := example_world released_env self false in
  exists w1,
    _set_cached_solve released_env example_solver_dict w = (Ok tt, w1)
    /\ _get_cached_solve released_env w1 = (Ok (Some example_solver_dict), w1)
    /\ _get_cached_solve
         (with_release_times released_env (fun n _ => example_times 300 400 n)) w1
       = (Ok (Some example_solver_dict), w1).
Proof.
  intros self w.
  apply (store_then_lookup_pinned released_env example_solver_dict w ["A"; "B"]
           (fun n _ => example_times 300 400 n) (example_variant "A")).
  - reflexivity.
  - discriminate.
  - reflexivity.
  - reflexivity.
  - reflexivity.
  - intros v Hv.
    apply (resolved_AB_times_known 300 200); [lia | lia | exact Hv].
  - exact names_AB_distinct.
  - left.
  - reflexivity.
  - reflexivity.
Defined.

(** The entry of another request list survives a solve of [A B]. *)
Lemma solve_touches_own_keys_only_witness :
  let self := example_resolver ["A"; "B"] ["/packages"] 0 0 0
                ResolverStatus.pending None in
  let other := example_resolver ["C"] ["/packages"] 0 0 0
                 ResolverStatus.pending None in
  let w := mkWorld self {[ _memcache_key solved_env other false := example_entry ]} [] in
  memcache (snd (solve solved_env 1 w)) !! _memcache_key solved_env other false
    = Some example_entry.
Proof.
  intros self other w.
  destruct (solve_touches_own_keys_only solved_env 1 w
              (fst (solve solved_env 1 w)) (snd (solve solved_env 1 w))
              (_memcache_key solved_env other false)) as [Hkept _].
  - destruct (solve solved_env 1 w); reflexivity.
  - discriminate.
  - discriminate.
  - rewrite Hkept. apply lookup_singleton_eq.
Defined.

Lemma example_cache_well_formed :
  forall (key : Key),
    cache_well_formed ({[ key := example_entry ]} : gmap Key (@Entry string unit)).
Proof.
  intros key key' data Hl.
  apply lookup_singleton_Some in Hl as [_ <-]. split; [reflexivity | discriminate].
Qed.

Lemma solve_preserves_cache_well_formed_witness :
  let self := example_resolver ["B"; "A"] ["/packages"] 0 0 0
                ResolverStatus.pending None in
  let other := example_resolver ["A"; "B"] ["/packages"] 0 0 0
                 ResolverStatus.pending None in
  let w := mkWorld self {[ _memcache_key solved_env other false := example_entry ]} [] in
  cache_well_formed (memcache (snd (solve solved_env 1 w))).
Proof.
  intros self other w.
  apply (solve_preserves_cache_well_formed solved_env 1 w (fst (solve solved_env 1 w))).
  - apply example_cache_well_formed.
  - destruct (solve solved_env 1 w); reflexivity.
Defined.

Lemma solve_no_timestamp_never_raises_witness :
  let self := example_resolver ["A"; "B"] ["/packages"] 0 0 0
                ResolverStatus.pending None in
  let w := example_world solved_env self true in
  fst (solve solved_env 0 w) = Ok tt.
Proof.
  intros self w.
  destruct (solve_no_timestamp_never_raises solved_env 0 w) as [_ Hret].
  - reflexivity.
  - apply example_cache_well_formed.
  - apply Hret. reflexivity.
Defined.

(** Two resolvers of [A B], one after the other, over an empty memcache. *)
Lemma second_solve_is_cache_hit_witness :
  let self := example_resolver ["A"; "B"] ["/packages"] 0 0 0
                ResolverStatus.pending None in
  let w := example_world solved_env self false in
  let w1 := snd (solve solved_env 1 w) in
  exists w2,
    solve solved_env 0 (mkWorld self (memcache w1) (solver_calls w1)) = (Ok tt, w2)
    /\ from_cache (self_ w2) = true
    /\ solver_calls w2 = solver_calls w1
    /\ memcache w2 = memcache w1
    /\ status_ (self_ w2) = ResolverStatus.solved
    /\ resolved_packages (self_ w2) = Some resolved_AB.
Proof.
  intros self w w1.
  apply (second_solve_is_cache_hit solved_env 1 0 w w1 self resolved_AB).
  - reflexivity.
  - reflexivity.
  - reflexivity.
  - reflexivity.
  - reflexivity.
  - reflexivity.
  - intros v Hv.
    apply (resolved_AB_times_known 100 200); [lia | lia | exact Hv].
  - exact names_AB_distinct.
  - apply same_inputs_refl.
Defined.

Lemma solve_depths_within_bounds_witness :
  let self := example_resolver ["A"; "B"] ["/packages"] 0 32 4
                ResolverStatus.pending None in
  let w := example_world deepening_env self false in
  exists calls,
    solver_calls (snd (_solve deepening_env 10 w)) = [] ++ calls
    /\ (forall args, args ∈ calls ->
          exists depth,
            args = kwargs deepening_env self (Some depth) /\ 4 <= depth <= 32).
Proof.
  intros self w.
  apply (solve_depths_within_bounds deepening_env 10 w
           (fst (_solve deepening_env 10 w)) (snd (_solve deepening_env 10 w))).
  - simpl. lia.
  - destruct (_solve deepening_env 10 w); reflexivity.
Defined.

(** [start_depth = 3], [max_depth = 20]: the depths are 3, 6, 12 and 20. *)
Lemma solve_iterative_exhausts_witness :
  let self := example_resolver ["A"; "B"] ["/packages"] 0 20 3
                ResolverStatus.pending None in
  let w := example_world stubborn_env self false in
  fst (_solve stubborn_env 4 w) = Ok (solver_at stubborn_env self 20)
  /\ map kw_max_depth (solver_calls (snd (_solve stubborn_env 4 w)))
     = [Some 3; Some 6; Some 12; Some 20].
Proof.
  intros self w.
  rewrite (solve_iterative_exhausts stubborn_env 4 w).
  - split; reflexivity.
  - simpl. lia.
  - reflexivity.
  - vm_compute. lia.
Defined.

Lemma solve_iterative_unbounded_diverges_witness :
  let self := example_resolver ["A"; "B"] ["/packages"] 0 0 4
                ResolverStatus.pending None in
  let w := example_world stubborn_env self false in
  exists w',
    _solve stubborn_env 50 w = (OutOfFuel, w')
    /\ length (solver_calls w') = (length (solver_calls w) + 50)%nat.
Proof.
  intros self w.
  apply (solve_iterative_unbounded_diverges stubborn_env 50 w).
  - discriminate.
  - reflexivity.
  - reflexivity.
Defined.

(** ** rez.utils.elf *)

Example get_rpaths_libfoo :
  get_rpaths example_popen (fun arg => arg) "libfoo.so" []
  = (inr ["/xxx"; "/yyy"], [Ran ["readelf"; "-d"; "libfoo.so"] None]).
Proof. reflexivity. Qed.

(** An rpath entry that is there but empty gives one empty path. *)
Example rpaths_of_empty_brackets :
  rpaths_of_line " 0x000000000000000f (RPATH)              Library rpath: []"
  = Some (inr [""]).
Proof. reflexivity. Qed.

Lemma get_rpaths_empty_iff_witness :
  ("(RPATH)" ∉ split_ws " 0x0000000000000001 (NEEDED)             Shared library: [libc.so.6]")
  /\ fst (get_rpaths example_popen (fun arg => arg) "libfoo.so" []) <> inr [].
Proof.
  split.
  - apply (proj1 (get_rpaths_empty_iff example_popen (fun arg => arg) "libbar.so" []
                    eq_refl) eq_refl).
    right. right. right. left.
  - intros Hempty.
    pose proof (proj1 (get_rpaths_empty_iff example_popen (fun arg => arg) "libfoo.so" []
                         eq_refl) Hempty
                  " 0x000000000000000f (RPATH)              Library rpath: [/xxx:/yyy]")
      as Hno.
    destruct Hno as [Hno _].
    + right. right. right. right. left.
    + apply Hno. right. left.
Defined.

Lemma get_rpaths_reads_joined_witness :
  fst (get_rpaths example_popen (fun arg => arg) "libfoo.so" []) = inr ["/xxx"; "/yyy"]
  /\ snd (patch_rpaths example_popen (fun arg => arg) ∅ "libfoo.so" ["/xxx"; "/yyy"] []) =
     [] ++ [EnterWritable "libfoo.so";
            Ran ["patchelf"; "--set-rpath"; "/xxx:/yyy"; "libfoo.so"]
                (Some (<["ORIGIN" := "$ORIGIN"]> ∅));
            ExitWritable "libfoo.so"].
Proof.
  apply (get_rpaths_reads_joined example_popen (fun arg => arg) ∅ "libfoo.so" [] []
           ["";
            "Dynamic section at offset 0x2d88 contains 27 entries:";
            "  Tag        Type                         Name/Value";
            " 0x0000000000000001 (NEEDED)             Shared library: [libc.so.6]"]
           " 0x000000000000000f (RPATH)              Library rpath: [/xxx:/yyy]"
           [" 0x000000000000001d (RUNPATH)            Library runpath: [/zzz]";
            " 0x000000000000000c (INIT)               0x1000"; ""]
           ["0x000000000000000f"; "(RPATH)"; "Library"; "rpath:"]
           ["/xxx"; "/yyy"]).
  - discriminate.
  - repeat constructor.
  - reflexivity.
  - reflexivity.
  - repeat (apply Forall_cons; split;
            [split; intros Hin; vm_compute in Hin;
             repeat (apply elem_of_cons in Hin as [Hin | Hin]; [discriminate |]);
             inversion Hin |]).
    apply Forall_nil. exact I.
  - reflexivity.
  - left. right. left.
Defined.

(** ** rez.cli.bind *)

(** [rez-bind -r -i /tmp/pkgs python]: the release path wins. *)
Lemma command_binds_into_install_path_witness :
  cli_bind.command example_bind_env
    (example_bind_opts false true false false (Some "/tmp/pkgs") (Some "python"))
  = [cli_bind.BindPackage "python" "/packages/release" (cli_bind.Passed None)
       (cli_bind.Passed false) (cli_bind.Passed []) cli_bind.NotPassed]
  /\ "/packages/release" = cli_bind.release_packages_path example_bind_env.
Proof.
  split; [reflexivity |].
  destruct (command_binds_into_install_path example_bind_env
              (example_bind_opts false true false false (Some "/tmp/pkgs") (Some "python"))
              "python" "/packages/release" (cli_bind.Passed None)
              (cli_bind.Passed false) (cli_bind.Passed []) cli_bind.NotPassed)
    as [Hrelease _].
  - left.
  - apply Hrelease. reflexivity.
Defined.

(** [rez-bind --quickstart --search -i /tmp/pkgs]. *)
Lemma command_quickstart_witness :
  let opts := example_bind_opts true false false true (Some "/tmp/pkgs") None in
  List.filter cli_bind.is_bind (cli_bind.command example_bind_env opts)
  = map (quickstart_bind "/tmp/pkgs")
        ["platform"; "arch"; "os"; "python"; "rez"; "rezgui"; "setuptools"; "pip"].
Proof.
  intros opts.
  destruct (command_quickstart example_bind_env opts) as [Hbinds _].
  - reflexivity.
  - reflexivity.
  - exact Hbinds.
Defined.

(** [rez-bind --list --quickstart] binds nothing. *)
Lemma command_binds_iff_witness :
  ~ (exists e,
        e ∈ cli_bind.command example_bind_env
              (example_bind_opts true false true false None None)
        /\ cli_bind.is_bind e = true).
Proof.
  intros Hbinds.
  apply (proj1 (command_binds_iff example_bind_env _)) in Hbinds as [Hlist _].
  discriminate Hlist.
Defined.

(** ** rez.cli.context *)

(** [rez-context] outside of a context, and [rez-context --pg no_graph.rxt]. *)
Lemma command_exit_witness :
  last (cli_context.command example_context_env
          (example_context_opts None None false false false false "bash"))
  = Some (cli_context.SysExit 1)
  /\ cli_context.has_graph example_context_env
       (snd (cli_context.load_context example_context_env "no_graph.rxt")) = false.
Proof.
  split.
  - destruct (command_exit example_context_env
                (example_context_opts None None false false false false "bash") 1)
      as (_ & Hlast & _).
    + right. left.
    + exact Hlast.
  - destruct (command_exit example_context_env
                (example_context_opts (Some "no_graph.rxt") None true false false
                   false "bash") 1)
      as (_ & _ & _ & [Hnone | (_ & _ & _ & Hno)]).
    + right. right. left.
    + discriminate Hnone.
    + exact Hno.
Defined.

(** [rez-context --which cmake a.rxt]: not found, and no exit. *)
Example command_which_not_found :
  cli_context.command example_context_env
    (example_context_opts (Some "a.rxt") (Some "cmake") false false false false "bash")
  = [cli_context.Load "a.rxt";
     cli_context.Which "a.rxt" "cmake" None;
     cli_context.Stderr "'cmake' not found in the context"].
Proof. reflexivity. Qed.

(** [rez-context -i -f dict --no-env a.rxt], with and without [--tools]. *)
Lemma command_interpret_witness :
  cli_context.command example_context_env
    (example_context_opts (Some "a.rxt") None false true true true "dict")
  = cli_context.command example_context_env
      (example_context_opts (Some "a.rxt") None false true true false "dict")
  /\ cli_context.GetEnviron "a.rxt" (Some ∅)
     ∈ cli_context.command example_context_env
         (example_context_opts (Some "a.rxt") None false true true false "dict").
Proof.
  destruct (command_interpret example_context_env
              (example_context_opts (Some "a.rxt") None false true true true "dict"))
    as (_ & _ & Hsame).
  split.
  - apply Hsame; reflexivity.
  - right. left.
Defined.
